(** * go-hcl-overlay: overlays on HCL bodies

    A shallow embedding of package [hcloverlay] (files [cli_args.go] and
    [overlay.go]) together with the properties of its overlay application
    algorithm.

    Conventions of the embedding.
    - Go strings are byte strings: [string].  Slices are lists; a nil slice
      and an empty slice are both [[]] (the one place where the source is
      sensitive to the difference, [labelsMatch], is discussed there).
    - [map[string]*hcl.Attribute] is a [gmap string Attribute]; the map is
      always initialised, as it is in every content value [hcl] hands out.
    - The source updates [*hcl.BodyContent] and [*hcl.Block] in place and
      returns the same pointer.  The embedding passes the content as a value
      and returns the updated value.  No [*hcl.Block] occurs twice in
      [content.Blocks], as in content freshly decoded by the bodies of [hcl],
      so that the assignment to the [Body] of one block is an update at one
      position of the list.
    - An index out of range is a run-time panic in Go: functions that can
      panic return [option], [None] being the panic.
    - [hcl.Body] is an interface.  Its implementations outside this package
      (parsed documents, [hcl.EmptyBody()]) are abstracted by the class
      [HclBody]; the implementation of this package is [applyBody]. *)

From Stdlib Require Import ZArith Ascii String List Bool Lia.
From stdpp Require Import base option list strings gmap fin_maps.

Local Open Scope string_scope.
Local Open Scope list_scope.

(** ** Source ranges, values and expressions ([hcl], [cty]) *)

Record Pos := mkPos { pos_Line : Z; pos_Column : Z; pos_Byte : Z }.

Record Range := mkRange { rng_Filename : string; rng_Start : Pos; rng_End : Pos }.

(** [hcl.Range{}]: the zero value, read by consumers as "no source range". *)
Definition zeroPos : Pos := mkPos 0 0 0.
Definition zeroRange : Range := mkRange "" zeroPos zeroPos.

(** [cty.Value], as far as this package builds values: [cty.StringVal]. *)
Inductive ctyValue :=
  | StringVal (s : string)
  | NumberIntVal (z : Z)
  | BoolVal (b : bool).

(** [hcl.Expression]: [hcl.StaticExpr val rng] is the literal expression the
    overlay builds; [SyntaxExpr] stands for an expression that a parser
    produced from source text. *)
Inductive Expression :=
  | StaticExpr (val : ctyValue) (rng : Range)
  | SyntaxExpr (src : string) (rng : Range).

(** What a static expression evaluates to, and the range it reports. *)
Definition exprValue (e : Expression) : option ctyValue :=
  match e with
  | StaticExpr v _ => Some v
  | SyntaxExpr _ _ => None
  end.

Definition exprRange (e : Expression) : Range :=
  match e with
  | StaticExpr _ r => r
  | SyntaxExpr _ r => r
  end.

(** [hcl.Attribute] *)
Record Attribute := mkAttribute {
  attr_Name : string;
  attr_Expr : Expression;
  attr_Range : Range;
  attr_NameRange : Range
}.

(** ** Schemas ([hcl.BodySchema]) *)

Record AttributeSchema := mkAttributeSchema {
  attrS_Name : string;
  attrS_Required : bool
}.

Record BlockHeaderSchema := mkBlockHeaderSchema {
  blockS_Type : string;
  blockS_LabelNames : list string
}.

Record BodySchema := mkBodySchema {
  schema_Attributes : list AttributeSchema;
  schema_Blocks : list BlockHeaderSchema
}.

(** ** Diagnostics ([hcl.Diagnostic]) *)

Inductive DiagnosticSeverity := DiagInvalid | DiagError | DiagWarning.

Record Diagnostic := mkDiagnostic {
  diag_Severity : DiagnosticSeverity;
  diag_Summary : string;
  diag_Detail : string;
  diag_Subject : option Range
}.

Definition Diagnostics := list Diagnostic.

(** [diags.HasErrors()] *)
Definition HasErrors (diags : Diagnostics) : bool :=
  existsb (fun d => match diag_Severity d with DiagError => true | _ => false end) diags.

(** ** Go string helpers *)

Definition dquote : ascii := "034"%char.

Definition hexDigit (n : nat) : ascii :=
  match String.get n "0123456789abcdef" with
  | Some c => c
  | None => "0"%char
  end.

(** One byte of [strconv.Quote], which is what the verb [%q] prints for a
    string.  ASCII bytes are rendered exactly as Go does.  Bytes from 0x80 on
    are copied: that is Go's rendering of the UTF-8 encoding of a printable
    rune only; Go escapes a byte that is not valid UTF-8 as [\xNN] and a rune
    that is not printable as [\uNNNN], which this model does not do.  The
    text of a quoted string is therefore only stated for ASCII strings (see
    [isASCII]) or for the paths the package builds from identifiers. *)
Definition quoteByte (c : ascii) : string :=
  let n := nat_of_ascii c in
  if Nat.eqb n 34 then String "\"%char (String dquote "")
  else if Nat.eqb n 92 then "\\"
  else if Nat.eqb n 7 then "\a"
  else if Nat.eqb n 8 then "\b"
  else if Nat.eqb n 12 then "\f"
  else if Nat.eqb n 10 then "\n"
  else if Nat.eqb n 13 then "\r"
  else if Nat.eqb n 9 then "\t"
  else if Nat.eqb n 11 then "\v"
  else if (n <? 32)%nat || Nat.eqb n 127
       then "\x" ++ String (hexDigit (n / 16)) (String (hexDigit (n mod 16)) "")
  else String c "".

Fixpoint quoteBody (s : string) : string :=
  match s with
  | EmptyString => ""
  | String c rest => quoteByte c ++ quoteBody rest
  end.

(** [fmt.Sprintf("%q", s)] *)
Definition Quote (s : string) : string :=
  String dquote (quoteBody s ++ String dquote "").

(** [strings.IndexByte(s, c)]: index of the first [c], or -1. *)
Fixpoint IndexByte (s : string) (c : ascii) : Z :=
  match s with
  | EmptyString => (-1)%Z
  | String x rest =>
      if Ascii.eqb x c then 0%Z
      else let i := IndexByte rest c in
           if (i <? 0)%Z then (-1)%Z else (i + 1)%Z
  end.

(** [strings.IndexAny(s, chars)] for ASCII [chars]. *)
Fixpoint IndexAny (s : string) (chars : list ascii) : Z :=
  match s with
  | EmptyString => (-1)%Z
  | String x rest =>
      if existsb (Ascii.eqb x) chars then 0%Z
      else let i := IndexAny rest chars in
           if (i <? 0)%Z then (-1)%Z else (i + 1)%Z
  end.

(** [s[:n]] and [s[n:]]; the source only slices within bounds. *)
Definition sliceTo (s : string) (n : Z) : string := String.substring 0 (Z.to_nat n) s.
Definition sliceFrom (s : string) (n : Z) : string :=
  String.substring (Z.to_nat n) (String.length s - Z.to_nat n) s.

(** [strings.HasPrefix] *)
Definition HasPrefix (s p : string) : bool := String.prefix p s.

(** [strings.Split(s, sep)] for a one-byte separator: never empty. *)
Fixpoint Split (s : string) (sep : ascii) : list string :=
  match s with
  | EmptyString => [""]
  | String c rest =>
      if Ascii.eqb c sep then "" :: Split rest sep
      else match Split rest sep with
           | [] => [String c ""]
           | w :: ws => String c w :: ws
           end
  end.

(** [strings.Contains(s, sub)] *)
Fixpoint Contains (s sub : string) : bool :=
  String.prefix sub s ||
  match s with
  | EmptyString => false
  | String _ rest => Contains rest sub
  end.

(** ** The path overlay ([cliArgOverlay]) *)

Record cliArgOverlay := mkCliArgOverlay {
  fullPath : string;      (* full path as originally given, for error messages *)
  steps : list string;
  val : string
}.

(** The interface [Overlay] has this one implementation: an [Overlay] is a
    [cliArgOverlay], and an [Overlay] that may be nil is an
    [option cliArgOverlay]. *)

Definition subOverlay (o : cliArgOverlay) (remainingSteps : list string) : cliArgOverlay :=
  {| fullPath := fullPath o; val := val o; steps := remainingSteps |}.

(** [reflect.DeepEqual] tells a nil slice from an empty one, and the source
    guards it with the test on both lengths; two slices that are not both
    empty are deeply equal exactly when they are equal as lists. *)
Definition labelsMatch (a b : list string) : bool :=
  if Nat.eqb (length a) 0 && Nat.eqb (length b) 0 then true
  else bool_decide (a = b).

Definition invalidArgError (o : cliArgOverlay) : Diagnostic :=
  {| diag_Severity := DiagError;
     diag_Summary := "Invalid argument";
     diag_Detail := "Unexpected argument " ++ Quote (fullPath o) ++ ".";
     diag_Subject := None |}.

(** ** Bodies, blocks and content *)

(** [hcl.Body] values: a body of another package, or this package's
    [applyBody]. *)
Inductive Body (B : Type) :=
  | BaseBody (b : B)
  | applyBody (inner : Body B) (overlays : list cliArgOverlay).
Arguments BaseBody {B} b.
Arguments applyBody {B} inner overlays.

(** [hcl.Block] *)
Record Block (B : Type) := mkBlock {
  block_Type : string;
  block_Labels : list string;
  block_Body : Body B;
  block_DefRange : Range;
  block_TypeRange : Range;
  block_LabelRanges : list Range
}.
Arguments mkBlock {B}.
Arguments block_Type {B}.
Arguments block_Labels {B}.
Arguments block_Body {B}.
Arguments block_DefRange {B}.
Arguments block_TypeRange {B}.
Arguments block_LabelRanges {B}.

(** [hcl.BodyContent] *)
Record BodyContent (B : Type) := mkBodyContent {
  content_Attributes : gmap string Attribute;
  content_Blocks : list (Block B);
  content_MissingItemRange : Range
}.
Arguments mkBodyContent {B}.
Arguments content_Attributes {B}.
Arguments content_Blocks {B}.
Arguments content_MissingItemRange {B}.

(** The decoding protocol of the bodies of other packages: the four methods
    of [hcl.Body], and [hcl.EmptyBody()]. *)
Class HclBody (B : Type) := {
  base_Content : B -> BodySchema -> BodyContent B * Diagnostics;
  base_PartialContent : B -> BodySchema -> BodyContent B * B * Diagnostics;
  base_JustAttributes : B -> gmap string Attribute * Diagnostics;
  base_MissingItemRange : B -> Range;
  EmptyBody : B
}.

(** [ApplyOverlays(body, overlays...)] *)
Definition ApplyOverlays {B} (body : Body B) (overlays : list cliArgOverlay) : Body B :=
  if Nat.eqb (length overlays) 0 then body (* wrapping is pointless *)
  else applyBody body overlays.

(** Whether a schema declares an attribute, or a block type, of a name. *)
Definition attrDeclared (schema : BodySchema) (name : string) : bool :=
  existsb (fun attrS => bool_decide (attrS_Name attrS = name)) (schema_Attributes schema).

Definition blockDeclared (schema : BodySchema) (type : string) : bool :=
  existsb (fun blockS => bool_decide (blockS_Type blockS = type)) (schema_Blocks schema).

Section Overlaying.
Context {B : Type} `{HclBody B}.

(** The attribute an overlay writes: only [Name] and [Expr] are set, the two
    ranges of the attribute are zero values. *)
Definition overlayAttribute (o : cliArgOverlay) (name : string) : Attribute :=
  {| attr_Name := name;
     attr_Expr := StaticExpr (StringVal (val o)) zeroRange;
     attr_Range := zeroRange;
     attr_NameRange := zeroRange |}.

(** [content.Attributes[name] = attr] *)
Definition setAttribute (content : BodyContent B) (name : string) (attr : Attribute)
  : BodyContent B :=
  {| content_Attributes := <[name := attr]> (content_Attributes content);
     content_Blocks := content_Blocks content;
     content_MissingItemRange := content_MissingItemRange content |}.

(** [content.Blocks = blocks] *)
Definition setBlocks (content : BodyContent B) (blocks : list (Block B)) : BodyContent B :=
  {| content_Attributes := content_Attributes content;
     content_Blocks := blocks;
     content_MissingItemRange := content_MissingItemRange content |}.

(** [block.Body = body] *)
Definition setBody (block : Block B) (body : Body B) : Block B :=
  {| block_Type := block_Type block;
     block_Labels := block_Labels block;
     block_Body := body;
     block_DefRange := block_DefRange block;
     block_TypeRange := block_TypeRange block;
     block_LabelRanges := block_LabelRanges block |}.

(** The loop over [content.Blocks] of [PartialApplyOverlay]: the first block
    of the wanted type and labels gets its body wrapped, and the loop returns
    at once.  [None]: the loop ran to its end without a match. *)
Fixpoint overrideFirstBlock (blocks : list (Block B)) (type : string)
    (wantLabels : list string) (subOverlay : cliArgOverlay) : option (list (Block B)) :=
  match blocks with
  | [] => None
  | block :: rest =>
      if negb (bool_decide (block_Type block = type)) then
        match overrideFirstBlock rest type wantLabels subOverlay with
        | Some rest' => Some (block :: rest')
        | None => None
        end
      else if negb (labelsMatch (block_Labels block) wantLabels) then
        match overrideFirstBlock rest type wantLabels subOverlay with
        | Some rest' => Some (block :: rest')
        | None => None
        end
      else
        (* We've found it! *)
        Some (setBody block (ApplyOverlays (block_Body block) [subOverlay]) :: rest)
  end.

(** The two loops over the schema return at the first entry of the wanted
    name: they are [find]. *)
Definition findAttrS (schema : BodySchema) (name : string) : option AttributeSchema :=
  find (fun attrS => bool_decide (attrS_Name attrS = name)) (schema_Attributes schema).

Definition findBlockS (schema : BodySchema) (name : string) : option BlockHeaderSchema :=
  find (fun blockS => bool_decide (blockS_Type blockS = name)) (schema_Blocks schema).

(** The block built when no block of the content matches. *)
Definition newBlock (blockS : BlockHeaderSchema) (wantLabels : list string)
    (subOverlay : cliArgOverlay) : Block B :=
  {| block_Type := blockS_Type blockS;
     block_Body := ApplyOverlays (BaseBody EmptyBody) [subOverlay];
     block_Labels := wantLabels;
     block_LabelRanges := replicate (length wantLabels) zeroRange;
     block_DefRange := zeroRange;
     block_TypeRange := zeroRange |}.

(** [(o *cliArgOverlay) PartialApplyOverlay(content, schema)].  The result is
    [None] when [o.steps[0]] panics. *)
Definition PartialApplyOverlay (o : cliArgOverlay) (content : BodyContent B)
    (schema : BodySchema) : option (BodyContent B * option cliArgOverlay * Diagnostics) :=
  match steps o with
  | [] => None
  | name :: _ =>
      match findAttrS schema name with
      | Some attrS =>
          if negb (Nat.eqb (length (steps o)) 1) then
            Some (content, None, [invalidArgError o])
          else
            (* overriding the attribute described by attrS *)
            Some (setAttribute content name (overlayAttribute o name), None, [])
      | None =>
          match findBlockS schema name with
          | Some blockS =>
              let needStepCount := 1 + 1 + length (blockS_LabelNames blockS) in
              if (length (steps o) <? needStepCount)%nat then
                Some (content, None, [invalidArgError o])
              else
                let wantLabels :=
                  drop 1 (take (length (blockS_LabelNames blockS) + 1) (steps o)) in
                let remainingSteps := drop (length wantLabels + 1) (steps o) in
                let subOverlay := subOverlay o remainingSteps in
                match overrideFirstBlock (content_Blocks content) (blockS_Type blockS)
                        wantLabels subOverlay with
                | Some blocks => Some (setBlocks content blocks, None, [])
                | None =>
                    let block := newBlock blockS wantLabels subOverlay in
                    Some (setBlocks content (content_Blocks content ++ [block]), None, [])
                end
          | None =>
              (* nothing the schema calls for: return ourselves for a later attempt *)
              Some (content, Some o, [])
          end
      end
  end.

(** [(o *cliArgOverlay) ApplyOverlay(content, schema)] *)
Definition ApplyOverlay (o : cliArgOverlay) (content : BodyContent B)
    (schema : BodySchema) : option (BodyContent B * Diagnostics) :=
  match PartialApplyOverlay o content schema with
  | None => None
  | Some (ret, remain, diags) =>
      match remain with
      | Some _ => Some (ret, diags ++ [invalidArgError o])
      | None => Some (ret, diags)
      end
  end.

(** [(o *cliArgOverlay) ApplyJustAttributes(attrs)].  When the overlay has no
    step at all, the length test fails first and no index is taken. *)
Definition ApplyJustAttributes (o : cliArgOverlay) (attrs : gmap string Attribute)
  : gmap string Attribute * Diagnostics :=
  match steps o with
  | [name] => (<[name := overlayAttribute o name]> attrs, [])
  | _ => (attrs, [invalidArgError o])
  end.

(** ** The composition view ([applyBody]) *)

(** [(b *applyBody) schemaNoRequired(given)] *)
Definition schemaNoRequired (given : BodySchema) : BodySchema :=
  {| schema_Blocks := schema_Blocks given;
     schema_Attributes :=
       if negb (Nat.eqb (length (schema_Attributes given)) 0) then
         map (fun attrS => {| attrS_Name := attrS_Name attrS; attrS_Required := false |})
             (schema_Attributes given)
       else [] |}.

(** [(b *applyBody) MissingItemRange()] *)
Fixpoint MissingItemRange (b : Body B) : Range :=
  match b with
  | BaseBody x => base_MissingItemRange x
  | applyBody inner _ => MissingItemRange inner
  end.

Definition missingRequiredDiag (b : Body B) (attrS : AttributeSchema) : Diagnostic :=
  {| diag_Severity := DiagError;
     diag_Summary := "Missing required argument";
     diag_Detail := "The argument " ++ Quote (attrS_Name attrS)
                    ++ " is required, but no definition was found.";
     diag_Subject := Some (MissingItemRange b) |}.

(** The loop of [prepareContent] over [schema.Attributes]. *)
Fixpoint checkRequired (b : Body B) (result : BodyContent B)
    (attrs : list AttributeSchema) (diags : Diagnostics) : Diagnostics :=
  match attrs with
  | [] => diags
  | attrS :: rest =>
      if negb (attrS_Required attrS) then checkRequired b result rest diags
      else match content_Attributes result !! attrS_Name attrS with
           | Some _ => checkRequired b result rest diags
           | None => checkRequired b result rest (diags ++ [missingRequiredDiag b attrS])
           end
  end.

(** [(b *applyBody) prepareContent(result, schema, diags)] *)
Definition prepareContent (b : Body B) (result : BodyContent B) (schema : BodySchema)
    (diags : Diagnostics) : BodyContent B * Diagnostics :=
  (result, checkRequired b result (schema_Attributes schema) diags).

(** The loop of [Content] over [b.overlays]. *)
Fixpoint applyEach (overlays : list cliArgOverlay) (modSchema : BodySchema)
    (content : BodyContent B) (diags : Diagnostics)
  : option (BodyContent B * Diagnostics) :=
  match overlays with
  | [] => Some (content, diags)
  | ov :: rest =>
      match ApplyOverlay ov content modSchema with
      | None => None
      | Some (content', moreDiags) => applyEach rest modSchema content' (diags ++ moreDiags)
      end
  end.

(** [(b *applyBody) Content(schema)], and the [Content] of a body of another
    package. *)
Fixpoint Content (b : Body B) (schema : BodySchema) : option (BodyContent B * Diagnostics) :=
  match b with
  | BaseBody x => Some (base_Content x schema)
  | applyBody inner overlays =>
      let modSchema := schemaNoRequired schema in
      match Content inner modSchema with
      | None => None
      | Some (content, diags) =>
          match applyEach overlays modSchema content diags with
          | None => None
          | Some (content', diags') => Some (prepareContent b content' schema diags')
          end
      end
  end.

(** The loop of [PartialContent] over [b.overlays]. *)
Fixpoint partialApplyEach (overlays : list cliArgOverlay) (modSchema : BodySchema)
    (content : BodyContent B) (diags : Diagnostics) (remainOverlays : list cliArgOverlay)
  : option (BodyContent B * Diagnostics * list cliArgOverlay) :=
  match overlays with
  | [] => Some (content, diags, remainOverlays)
  | ov :: rest =>
      match PartialApplyOverlay ov content modSchema with
      | None => None
      | Some (content', remainOverlay, moreDiags) =>
          partialApplyEach rest modSchema content' (diags ++ moreDiags)
            (match remainOverlay with
             | Some r => remainOverlays ++ [r]
             | None => remainOverlays
             end)
      end
  end.

(** [(b *applyBody) PartialContent(schema)], and the [PartialContent] of a
    body of another package. *)
Fixpoint PartialContent (b : Body B) (schema : BodySchema)
  : option (BodyContent B * Body B * Diagnostics) :=
  match b with
  | BaseBody x =>
      let '(content, remain, diags) := base_PartialContent x schema in
      Some (content, BaseBody remain, diags)
  | applyBody inner overlays =>
      let modSchema := schemaNoRequired schema in
      match PartialContent inner modSchema with
      | None => None
      | Some (content, remain, diags) =>
          match partialApplyEach overlays modSchema content diags [] with
          | None => None
          | Some (content', diags', remainOverlays) =>
              let remain' := ApplyOverlays remain remainOverlays in
              let '(content'', diags'') := prepareContent b content' schema diags' in
              Some (content'', remain', diags'')
          end
      end
  end.

(** The loop of [JustAttributes] over [b.overlays]. *)
Fixpoint justAttributesEach (overlays : list cliArgOverlay)
    (attrs : gmap string Attribute) (diags : Diagnostics)
  : gmap string Attribute * Diagnostics :=
  match overlays with
  | [] => (attrs, diags)
  | ov :: rest =>
      let '(attrs', moreDiags) := ApplyJustAttributes ov attrs in
      justAttributesEach rest attrs' (diags ++ moreDiags)
  end.

(** [(b *applyBody) JustAttributes()] *)
Fixpoint JustAttributes (b : Body B) : gmap string Attribute * Diagnostics :=
  match b with
  | BaseBody x => base_JustAttributes x
  | applyBody inner overlays =>
      let '(attrs, diags) := JustAttributes inner in
      justAttributesEach overlays attrs diags
  end.

End Overlaying.

(** ** Parsing command line arguments *)

Section CommandLine.
(** [hclsyntax.ValidIdentifier], the identifier test of the HCL scanner. *)
Variable ValidIdentifier : string -> bool.

Definition invalidSyntaxDiag (raw : string) : Diagnostic :=
  {| diag_Severity := DiagError;
     diag_Summary := "Invalid argument";
     diag_Detail := "Invalid argument " ++ Quote raw
       ++ ": must be a configuration setting, followed by an equals sign, and then a value for that setting.";
     diag_Subject := None |}.

Definition invalidComponentDiag (step path : string) : Diagnostic :=
  {| diag_Severity := DiagError;
     diag_Summary := "Invalid argument";
     diag_Detail := "Invalid component " ++ Quote step ++ " in argument " ++ Quote path
       ++ ": dot-separated parts must be a letter followed by zero or more letters, digits, or underscores.";
     diag_Subject := None |}.

(** The loop of [ParseCLIArgument] over [steps]. *)
Fixpoint checkSteps (steps : list string) (path : string) (diags : Diagnostics) : Diagnostics :=
  match steps with
  | [] => diags
  | step :: rest =>
      if negb (ValidIdentifier step)
      then checkSteps rest path (diags ++ [invalidComponentDiag step path])
      else checkSteps rest path diags
  end.

(** [ParseCLIArgument(raw)] *)
Definition ParseCLIArgument (raw : string) : option cliArgOverlay * Diagnostics :=
  let eq := IndexByte raw "="%char in
  if (eq <? 1)%Z then (None, [invalidSyntaxDiag raw])
  else
    let path := sliceTo raw eq in
    let val := sliceFrom raw (eq + 1) in
    let steps := Split path "."%char in
    let diags := checkSteps steps path [] in
    if HasErrors diags then (None, diags)
    else (Some {| fullPath := path; steps := steps; val := val |}, []).

(** The test of [ExtractCLIOptions] for a name of the schema. *)
Definition schemaMentions (schema : BodySchema) (match_ : string) : bool :=
  attrDeclared schema match_ || blockDeclared schema match_.

(** The loop of [ExtractCLIOptions] over [args], on the three variables
    [remain], [overlays] and [diags]. *)
Fixpoint extractLoop (args : list string) (schema : BodySchema)
    (remain : list string) (overlays : list cliArgOverlay) (diags : Diagnostics)
  : list string * list cliArgOverlay * Diagnostics :=
  match args with
  | [] => (remain, overlays, diags)
  | arg :: rest =>
      if bool_decide (arg = "--") then (remain ++ rest, overlays, diags) (* break *)
      else if negb (HasPrefix arg "--") then
        extractLoop rest schema (remain ++ [arg]) overlays diags
      else
        let raw := sliceFrom arg 2 in (* trim the prefix *)
        let sep := IndexAny raw ["."%char; "="%char] in
        let match_ := if negb (sep =? -1)%Z then sliceTo raw sep else raw in
        if negb (schemaMentions schema match_) then
          extractLoop rest schema remain overlays diags
        else
          let '(o, moreDiags) := ParseCLIArgument raw in
          extractLoop rest schema remain
            (match o with Some ov => overlays ++ [ov] | None => overlays end)
            (diags ++ moreDiags)
  end.

(** [ExtractCLIOptions(args, schema)]: the second result is [args]. *)
Definition ExtractCLIOptions (args : list string) (schema : BodySchema)
  : list cliArgOverlay * list string * Diagnostics :=
  let '(remain, overlays, diags) := extractLoop args schema [] [] [] in
  (overlays, args, diags).

End CommandLine.

(** ** A document model for concrete scenarios

    An instance of [HclBody] in the manner of a parsed native-syntax
    document: a tree of attributes and labelled blocks, decoded against a
    schema one level at a time. *)

Inductive Doc :=
  | mkDoc (attrs : list (string * Expression)) (blocks : list DocBlock) (missingItem : Range)
  | emptyDoc
with DocBlock :=
  | mkDocBlock (type : string) (labels : list string) (body : Doc).

(** [emptyDoc] is [hcl.EmptyBody()]: nothing in it, the missing item range
    named after it, and content whose own missing item range is left zero. *)
Definition doc_attrs (d : Doc) : list (string * Expression) :=
  match d with mkDoc a _ _ => a | emptyDoc => [] end.
Definition doc_blocks (d : Doc) : list DocBlock :=
  match d with mkDoc _ b _ => b | emptyDoc => [] end.
Definition doc_missingItem (d : Doc) : Range :=
  match d with mkDoc _ _ r => r | emptyDoc => mkRange "<empty>" zeroPos zeroPos end.
Definition doc_contentMissingItem (d : Doc) : Range :=
  match d with mkDoc _ _ r => r | emptyDoc => zeroRange end.
Definition docBlock_type (b : DocBlock) := match b with mkDocBlock t _ _ => t end.
Definition docBlock_labels (b : DocBlock) := match b with mkDocBlock _ l _ => l end.
Definition docBlock_body (b : DocBlock) := match b with mkDocBlock _ _ d => d end.

Definition docAttribute (kv : string * Expression) : Attribute :=
  {| attr_Name := fst kv; attr_Expr := snd kv;
     attr_Range := exprRange (snd kv); attr_NameRange := exprRange (snd kv) |}.

Definition docBlock (b : DocBlock) : Block Doc :=
  {| block_Type := docBlock_type b;
     block_Labels := docBlock_labels b;
     block_Body := BaseBody (docBlock_body b);
     block_DefRange := doc_missingItem (docBlock_body b);
     block_TypeRange := doc_missingItem (docBlock_body b);
     block_LabelRanges :=
       replicate (length (docBlock_labels b)) (doc_missingItem (docBlock_body b)) |}.

Definition docDiag (summary detail : string) (d : Doc) : Diagnostic :=
  {| diag_Severity := DiagError; diag_Summary := summary; diag_Detail := detail;
     diag_Subject := Some (doc_missingItem d) |}.

Definition docMatched (d : Doc) (schema : BodySchema) : BodyContent Doc :=
  {| content_Attributes :=
       list_to_map (map (fun kv => (fst kv, docAttribute kv))
         (filter (fun kv => attrDeclared schema (fst kv) = true) (doc_attrs d)));
     content_Blocks :=
       map docBlock (filter (fun b => blockDeclared schema (docBlock_type b) = true) (doc_blocks d));
     content_MissingItemRange := doc_contentMissingItem d |}.

Definition docMissing (d : Doc) (schema : BodySchema) : Diagnostics :=
  map (fun attrS => docDiag "Missing required argument"
         ("The argument " ++ Quote (attrS_Name attrS) ++ " is required, but no definition was found.") d)
    (filter (fun attrS => attrS_Required attrS = true
                          /\ ~ (attrS_Name attrS ∈ map fst (doc_attrs d)))
       (schema_Attributes schema)).

Definition docUnsupported (d : Doc) (schema : BodySchema) : Diagnostics :=
  map (fun kv => docDiag "Unsupported argument"
         ("An argument named " ++ Quote (fst kv) ++ " is not expected here.") d)
    (filter (fun kv => attrDeclared schema (fst kv) = false) (doc_attrs d))
  ++ map (fun b => docDiag "Unsupported block type"
         ("Blocks of type " ++ Quote (docBlock_type b) ++ " are not expected here.") d)
    (filter (fun b => blockDeclared schema (docBlock_type b) = false) (doc_blocks d)).

Definition docRemain (d : Doc) (schema : BodySchema) : Doc :=
  match d with
  | emptyDoc => emptyDoc
  | mkDoc attrs blocks missingItem =>
      mkDoc (filter (fun kv => attrDeclared schema (fst kv) = false) attrs)
            (filter (fun b => blockDeclared schema (docBlock_type b) = false) blocks)
            missingItem
  end.

#[export] Instance Doc_HclBody : HclBody Doc := {|
  base_Content d schema := (docMatched d schema, docUnsupported d schema ++ docMissing d schema);
  base_PartialContent d schema := (docMatched d schema, docRemain d schema, docMissing d schema);
  base_JustAttributes d :=
    (list_to_map (map (fun kv => (fst kv, docAttribute kv)) (doc_attrs d)),
     map (fun b => docDiag "Unexpected block"
            ("Blocks are not allowed here.") d) (doc_blocks d));
  base_MissingItemRange := doc_missingItem;
  EmptyBody := emptyDoc
|}.

(** ** Notions used to state the properties *)

Section Notions.
Context {B : Type} `{HclBody B}.

(** The first step [name] is resolved to the block spec [blockS]: the
    attribute specs are tried first, then the block specs in order. *)
Definition matchesBlockSpec (schema : BodySchema) (name : string)
    (blockS : BlockHeaderSchema) : Prop :=
  findAttrS schema name = None /\ findBlockS schema name = Some blockS.

(** The candidate labels and the sub-overlay of an overlay at a block type
    of [k] labels. *)
Definition candidateLabels (o : cliArgOverlay) (k : nat) : list string :=
  take k (drop 1 (steps o)).

Definition remainderOverlay (o : cliArgOverlay) (k : nat) : cliArgOverlay :=
  {| fullPath := fullPath o; steps := drop (1 + k) (steps o); val := val o |}.

(** A block has the wanted header: its type is [type] and its labels are
    exactly [labels]. *)
Definition hasHeader (type : string) (labels : list string) (block : Block B) : bool :=
  bool_decide (block_Type block = type) && bool_decide (block_Labels block = labels).

(** Two blocks differ at most in their bodies. *)
Definition sameHeader (b1 b2 : Block B) : Prop :=
  block_Type b1 = block_Type b2 /\ block_Labels b1 = block_Labels b2
  /\ block_DefRange b1 = block_DefRange b2 /\ block_TypeRange b1 = block_TypeRange b2
  /\ block_LabelRanges b1 = block_LabelRanges b2.

(** Two contents that differ at most in the bodies of their blocks, which are
    related by [R] block by block, in order. *)
Definition contentRel (R : Body B -> Body B -> Prop) (c1 c2 : BodyContent B) : Prop :=
  content_Attributes c1 = content_Attributes c2
  /\ content_MissingItemRange c1 = content_MissingItemRange c2
  /\ Forall2 (fun b1 b2 => sameHeader b1 b2 /\ R (block_Body b1) (block_Body b2))
       (content_Blocks c1) (content_Blocks c2).

(** Two bodies decode alike down to nesting depth [n]: under every schema,
    [Content] panics on both or returns on both, with the same attributes and,
    block by block, the same headers and bodies that decode alike down to
    depth [n - 1].  Diagnostics are not compared. *)
Fixpoint sameBody (n : nat) (x y : Body B) : Prop :=
  match n with
  | O => True
  | S n' =>
      forall schema,
        match Content x schema, Content y schema with
        | Some (c1, _), Some (c2, _) => contentRel (sameBody n') c1 c2
        | None, None => True
        | _, _ => False
        end
  end.

(** Two contents are the same decoded content down to depth [n]. *)
Definition sameDecoded (n : nat) (c1 c2 : BodyContent B) : Prop :=
  contentRel (sameBody n) c1 c2.

(** The same for the results of two decodings. *)
Definition sameDecodedResult (n : nat)
    (r1 r2 : option (BodyContent B * Diagnostics)) : Prop :=
  match r1, r2 with
  | Some (c1, _), Some (c2, _) => sameDecoded n c1 c2
  | None, None => True
  | _, _ => False
  end.

(** The body of another package under the views of this one. *)
Fixpoint baseOf (b : Body B) : B :=
  match b with
  | BaseBody x => x
  | applyBody inner _ => baseOf inner
  end.

(** The schema declares the first step of the overlay neither as an attribute
    nor as a block type. *)
Definition unmatched (schema : BodySchema) (o : cliArgOverlay) : bool :=
  match head (steps o) with
  | Some name => negb (attrDeclared schema name) && negb (blockDeclared schema name)
  | None => false
  end.

(** The diagnostics [prepareContent] adds, in closed form. *)
Definition missingRequired (b : Body B) (result : BodyContent B) (schema : BodySchema)
  : Diagnostics :=
  map (missingRequiredDiag b)
    (List.filter (fun attrS => attrS_Required attrS
                    && negb (bool_decide (is_Some (content_Attributes result !! attrS_Name attrS))))
       (schema_Attributes schema)).

End Notions.

(** An attribute spec with its [Required] flag cleared. *)
Definition clearRequired (attrS : AttributeSchema) : AttributeSchema :=
  {| attrS_Name := attrS_Name attrS; attrS_Required := false |}.

(** Every byte of the string is printed as itself by [%q]. *)
Definition plainText (s : string) : bool := bool_decide (quoteBody s = s).

(** ** The configurations of the examples

    The schema and document of [examples/cliargs] and the overlays of its
    README, and the one-label block schema of the package tests. *)

Definition fileRange : Range := mkRange "config.hcl" (mkPos 1 1 0) (mkPos 1 1 0).

Definition rootSchema : BodySchema :=
  {| schema_Attributes := [ {| attrS_Name := "io_mode"; attrS_Required := true |} ];
     schema_Blocks := [ {| blockS_Type := "service"; blockS_LabelNames := ["type"; "name"] |} ] |}.

Definition serviceSchema : BodySchema :=
  {| schema_Attributes := [ {| attrS_Name := "listen_addr"; attrS_Required := true |} ];
     schema_Blocks := [] |}.

Definition serviceDoc : Doc :=
  mkDoc [("listen_addr", SyntaxExpr "127.0.0.1:8080" fileRange)] [] fileRange.

Definition configDoc : Doc :=
  mkDoc [("io_mode", SyntaxExpr "async" fileRange)]
        [mkDocBlock "service" ["http"; "web_proxy"] serviceDoc]
        fileRange.

Definition ioModeOverlay : cliArgOverlay :=
  {| fullPath := "io_mode"; steps := ["io_mode"]; val := "blocking" |}.

Definition listenOverlay : cliArgOverlay :=
  {| fullPath := "service.http.web_proxy.listen_addr";
     steps := ["service"; "http"; "web_proxy"; "listen_addr"];
     val := "127.0.0.1:2000" |}.

Definition gopherOverlay : cliArgOverlay :=
  {| fullPath := "service.gopher.proxy.listen_addr";
     steps := ["service"; "gopher"; "proxy"; "listen_addr"];
     val := "127.0.0.1:2000" |}.

Definition invalidOverlay : cliArgOverlay :=
  {| fullPath := "service.http.web_proxy.invalid";
     steps := ["service"; "http"; "web_proxy"; "invalid"];
     val := "foo" |}.

Definition jsonOverlay : cliArgOverlay :=
  {| fullPath := "json"; steps := ["json"]; val := "true" |}.

(** The content of the example document under the relaxed root schema. *)
Definition configContent : BodyContent Doc :=
  fst (base_Content configDoc (schemaNoRequired rootSchema)).

(** The schemas of the package tests: a root with attributes [foo] and [bar],
    a block type [block] of one label or of none, and a block body with the
    attribute [foo]. *)
Definition fooSchema : BodySchema :=
  {| schema_Attributes := [ {| attrS_Name := "foo"; attrS_Required := true |} ];
     schema_Blocks := [] |}.

Definition fooBarSchema : BodySchema :=
  {| schema_Attributes := [ {| attrS_Name := "foo"; attrS_Required := true |};
                            {| attrS_Name := "bar"; attrS_Required := true |} ];
     schema_Blocks := [] |}.

Definition oneLabelSchema : BodySchema :=
  {| schema_Attributes := [];
     schema_Blocks := [ {| blockS_Type := "block"; blockS_LabelNames := ["name"] |} ] |}.

Definition noLabelSchema : BodySchema :=
  {| schema_Attributes := [];
     schema_Blocks := [ {| blockS_Type := "block"; blockS_LabelNames := [] |} ] |}.

Definition fooDoc (v : string) : Doc := mkDoc [("foo", SyntaxExpr v fileRange)] [] fileRange.

(** What a decoder reads off a result: the expressions of the attributes. *)
Definition decodedAttributes (r : option (BodyContent Doc * Diagnostics))
  : list (string * Expression) :=
  match r with
  | Some (c, _) => map_to_list (attr_Expr <$> content_Attributes c)
  | None => []
  end.

(** And off its blocks: the labels of each, and the attributes of its body
    under the schema [nested]. *)
Definition decodedBlocks (nested : BodySchema) (r : option (BodyContent Doc * Diagnostics))
  : list (list string * list (string * Expression)) :=
  match r with
  | Some (c, _) =>
      map (fun blk => (block_Labels blk, decodedAttributes (Content (block_Body blk) nested)))
        (content_Blocks c)
  | None => []
  end.

Definition diagnosticsOf (r : option (BodyContent Doc * Diagnostics)) : list string :=
  match r with
  | Some (_, d) => map diag_Detail d
  | None => []
  end.

(** The body of a test: parse the argument, overlay the document. *)
Definition overlaid (doc : Doc) (arg : string) (ValidIdentifier : string -> bool) : Body Doc :=
  match fst (ParseCLIArgument ValidIdentifier arg) with
  | Some o => ApplyOverlays (BaseBody doc) [o]
  | None => BaseBody doc
  end.

(** The identifier test for the examples: [hclsyntax.ValidIdentifier] on
    ASCII strings, where an identifier is a letter or an underscore followed
    by letters, digits, underscores and dashes.  (The scanner of HCL also
    takes the letters of Unicode, which this test does not; the examples are
    ASCII.) *)
Definition isLetter (c : ascii) : bool :=
  let n := nat_of_ascii c in
  ((65 <=? n)%nat && (n <=? 90)%nat) || ((97 <=? n)%nat && (n <=? 122)%nat).

Definition isDigit (c : ascii) : bool :=
  let n := nat_of_ascii c in (48 <=? n)%nat && (n <=? 57)%nat.

Definition asciiIdentifier (s : string) : bool :=
  match s with
  | EmptyString => false
  | String c rest =>
      (isLetter c || Ascii.eqb c "_"%char)
      && forallb (fun x => isLetter x || isDigit x || Ascii.eqb x "_"%char
                           || Ascii.eqb x "-"%char)
           (list_ascii_of_string rest)
  end.

(** ** Notions for the further properties *)

(** [strings.Join(parts, sep)] *)
Fixpoint Join (parts : list string) (sep : string) : string :=
  match parts with
  | [] => ""
  | p :: rest =>
      match rest with
      | [] => p
      | _ :: _ => p ++ sep ++ Join rest sep
      end
  end.

(** Every byte of the string is below 0x80: the strings on which [Quote]
    is [%q] exactly. *)
Definition isASCII (s : string) : bool :=
  forallb (fun c => (nat_of_ascii c <? 128)%nat) (list_ascii_of_string s).

(** The steps of a path that are not identifiers, in their order. *)
Definition invalidSteps (ValidIdentifier : string -> bool) (path : string) : list string :=
  List.filter (fun step => negb (ValidIdentifier step)) (Split path "."%char).

(** The name [ExtractCLIOptions] looks up in the schema for a token: what
    follows the two dashes, up to the first dot or equals sign. *)
Definition optionName (arg : string) : string :=
  let raw := sliceFrom arg 2 in
  let sep := IndexAny raw ["."%char; "="%char] in
  if negb (sep =? -1)%Z then sliceTo raw sep else raw.

(** A token that is no option, or an option of a name the schema does not
    mention. *)
Definition foreignToken (schema : BodySchema) (arg : string) : bool :=
  negb (HasPrefix arg "--") || negb (schemaMentions schema (optionName arg)).

(** What [PartialApplyOverlay] makes of an overlay under a schema, before it
    looks at the content. *)
Inductive Verdict :=
  | Panics
  | SetsAttribute (name : string)
  | Rejected
  | EntersBlock (blockS : BlockHeaderSchema)
  | Deferred.

Definition verdict (schema : BodySchema) (o : cliArgOverlay) : Verdict :=
  match steps o with
  | [] => Panics
  | name :: rest =>
      if attrDeclared schema name then
        match rest with
        | [] => SetsAttribute name
        | _ :: _ => Rejected
        end
      else
        match findBlockS schema name with
        | Some blockS =>
            if (length (steps o) <? 2 + length (blockS_LabelNames blockS))%nat
            then Rejected else EntersBlock blockS
        | None => Deferred
        end
  end.

(** The overlay has the one step [a]. *)
Definition namesOnly (a : string) (o : cliArgOverlay) : bool :=
  bool_decide (steps o = [a]).

(** The last overlay of a sequence that has the one step [a]. *)
Definition lastSetter (a : string) (overlays : list cliArgOverlay) : option cliArgOverlay :=
  last (List.filter (namesOnly a) overlays).

(** The overlay has a step. *)
Definition hasSteps (o : cliArgOverlay) : bool := negb (bool_decide (steps o = [])).

(** Every overlay of every view of the body has a step. *)
Fixpoint wellFormed {B : Type} (b : Body B) : bool :=
  match b with
  | BaseBody _ => true
  | applyBody inner overlays => wellFormed inner && forallb hasSteps overlays
  end.

(** Two schemas that split the example configuration: the first declares
    only the [service] blocks, the second only [io_mode]. *)
Definition servicesSchema : BodySchema :=
  {| schema_Attributes := [];
     schema_Blocks := [ {| blockS_Type := "service"; blockS_LabelNames := ["type"; "name"] |} ] |}.

Definition ioModeSchema : BodySchema :=
  {| schema_Attributes := [ {| attrS_Name := "io_mode"; attrS_Required := true |} ];
     schema_Blocks := [] |}.

(** * Properties *)

Section Facts.
Context {B : Type} `{HclBody B}.
Implicit Types (o : cliArgOverlay) (content : BodyContent B) (schema : BodySchema).

(** ** The schema lookups *)

Lemma findAttrS_declared schema name :
  attrDeclared schema name = true <-> is_Some (findAttrS schema name).
Proof.
  unfold attrDeclared, findAttrS.
  induction (schema_Attributes schema) as [|a l IH]; simpl.
  - split; [discriminate | intros [x Hx]; discriminate].
  - destruct (bool_decide (attrS_Name a = name)); simpl; [|exact IH].
    split; eauto.
Qed.

Lemma findAttrS_undeclared schema name :
  attrDeclared schema name = false <-> findAttrS schema name = None.
Proof.
  rewrite <- not_true_iff_false, findAttrS_declared, <- eq_None_not_Some. tauto.
Qed.

Lemma findBlockS_undeclared schema name :
  blockDeclared schema name = false <-> findBlockS schema name = None.
Proof.
  unfold blockDeclared, findBlockS.
  induction (schema_Blocks schema) as [|a l IH]; simpl; [tauto|].
  destruct (bool_decide (blockS_Type a = name)); simpl; [|exact IH].
  split; discriminate.
Qed.

Lemma findBlockS_type schema name blockS :
  findBlockS schema name = Some blockS -> blockS_Type blockS = name.
Proof.
  unfold findBlockS.
  induction (schema_Blocks schema) as [|a l IH]; simpl; [discriminate|].
  destruct (bool_decide_reflect (blockS_Type a = name)); [|exact IH].
  intros [= <-]. assumption.
Qed.

(** ** The relaxed schema *)

Lemma schemaNoRequired_attributes schema :
  schema_Attributes (schemaNoRequired schema) = map clearRequired (schema_Attributes schema).
Proof.
  unfold schemaNoRequired; simpl.
  destruct (schema_Attributes schema); reflexivity.
Qed.

Lemma schemaNoRequired_idem schema :
  schemaNoRequired (schemaNoRequired schema) = schemaNoRequired schema.
Proof.
  unfold schemaNoRequired at 1; simpl schema_Blocks.
  rewrite schemaNoRequired_attributes.
  unfold schemaNoRequired. f_equal.
  destruct (schema_Attributes schema) as [|a l]; [reflexivity|].
  simpl. f_equal. rewrite map_map. reflexivity.
Qed.

Lemma attrDeclared_schemaNoRequired schema name :
  attrDeclared (schemaNoRequired schema) name = attrDeclared schema name.
Proof.
  unfold attrDeclared. rewrite schemaNoRequired_attributes.
  induction (schema_Attributes schema) as [|a l IH]; simpl; [reflexivity|].
  rewrite IH. reflexivity.
Qed.

(** ** Slices of the step list *)

Lemma wantLabels_candidate o k :
  drop 1 (take (k + 1) (steps o)) = candidateLabels o k.
Proof.
  unfold candidateLabels. destruct (steps o) as [|x l]; simpl.
  - destruct k; reflexivity.
  - replace (k + 1) with (S k) by lia. reflexivity.
Qed.

Lemma candidateLabels_length o k :
  2 + k <= length (steps o) -> length (candidateLabels o k) = k.
Proof.
  intros Hlen. unfold candidateLabels.
  rewrite length_take, length_drop. lia.
Qed.

Lemma labelsMatch_eq (a b : list string) : labelsMatch a b = true <-> a = b.
Proof.
  unfold labelsMatch.
  destruct a, b; simpl; try (rewrite bool_decide_eq_true); split; congruence.
Qed.

(** ** The loop over the blocks of the content *)

Lemma hasHeader_spec type want (blk : Block B) :
  hasHeader type want blk
  = bool_decide (block_Type blk = type) && labelsMatch (block_Labels blk) want.
Proof.
  unfold hasHeader. f_equal.
  apply eq_true_iff_eq. rewrite bool_decide_eq_true. symmetry. apply labelsMatch_eq.
Qed.

Lemma overrideFirstBlock_step (blk : Block B) rest type want sub :
  overrideFirstBlock (blk :: rest) type want sub
  = if hasHeader type want blk
    then Some (setBody blk (ApplyOverlays (block_Body blk) [sub]) :: rest)
    else match overrideFirstBlock rest type want sub with
         | Some rest' => Some (blk :: rest')
         | None => None
         end.
Proof.
  rewrite hasHeader_spec. simpl.
  destruct (bool_decide (block_Type blk = type)); simpl; [|reflexivity].
  destruct (labelsMatch (block_Labels blk) want); reflexivity.
Qed.

Lemma overrideFirstBlock_none (blocks : list (Block B)) type want sub :
  existsb (hasHeader type want) blocks = false ->
  overrideFirstBlock blocks type want sub = None.
Proof.
  induction blocks as [|blk l IH]; [reflexivity|].
  rewrite overrideFirstBlock_step. simpl existsb.
  intros [Hb Hl]%orb_false_elim. rewrite Hb, IH by assumption. reflexivity.
Qed.

Lemma overrideFirstBlock_first (pre post : list (Block B)) blk type want sub :
  existsb (hasHeader type want) pre = false ->
  hasHeader type want blk = true ->
  overrideFirstBlock (pre ++ blk :: post) type want sub
  = Some (pre ++ setBody blk (applyBody (block_Body blk) [sub]) :: post).
Proof.
  intros Hpre Hblk.
  induction pre as [|b l IH]; rewrite ?app_comm_cons, ?app_nil_l.
  - rewrite overrideFirstBlock_step, Hblk. reflexivity.
  - simpl in Hpre. apply orb_false_elim in Hpre as [Hb Hl].
    simpl app. rewrite overrideFirstBlock_step, Hb, IH by assumption. reflexivity.
Qed.

(** The blocks split at the first block of the wanted header. *)
Lemma first_header_split (blocks : list (Block B)) type want :
  existsb (hasHeader type want) blocks = true ->
  exists pre blk post,
    blocks = pre ++ blk :: post
    /\ existsb (hasHeader type want) pre = false
    /\ hasHeader type want blk = true.
Proof.
  induction blocks as [|b l IH]; [discriminate|].
  simpl. destruct (hasHeader type want b) eqn:Hb; simpl.
  - intros _. exists [], b, l. auto.
  - intros (pre & blk & post & -> & Hpre & Hblk)%IH.
    exists (b :: pre), blk, post. simpl. rewrite Hb. auto.
Qed.

(** ** The cases of [PartialApplyOverlay] *)

Lemma PartialApplyOverlay_attribute o content schema name :
  steps o = [name] ->
  attrDeclared schema name = true ->
  PartialApplyOverlay o content schema
  = Some (setAttribute content name (overlayAttribute o name), None, []).
Proof.
  intros Hs Hd. unfold PartialApplyOverlay. rewrite Hs.
  apply findAttrS_declared in Hd as [attrS ->]. reflexivity.
Qed.

Lemma PartialApplyOverlay_block o content schema name blockS :
  head (steps o) = Some name ->
  matchesBlockSpec schema name blockS ->
  2 + length (blockS_LabelNames blockS) <= length (steps o) ->
  let k := length (blockS_LabelNames blockS) in
  PartialApplyOverlay o content schema
  = match overrideFirstBlock (content_Blocks content) (blockS_Type blockS)
            (candidateLabels o k) (remainderOverlay o k) with
    | Some blocks => Some (setBlocks content blocks, None, [])
    | None =>
        Some (setBlocks content
                (content_Blocks content
                 ++ [newBlock blockS (candidateLabels o k) (remainderOverlay o k)]),
              None, [])
    end.
Proof.
  intros Hhd [Ha Hb] Hlen k. unfold PartialApplyOverlay.
  destruct (steps o) as [|x l] eqn:Hs; [discriminate|].
  injection Hhd as ->. rewrite Ha, Hb.
  replace (length (name :: l) <? 1 + 1 + length (blockS_LabelNames blockS))%nat with false
    by (symmetry; apply Nat.ltb_ge; exact Hlen).
  cbv zeta. rewrite <- Hs, wantLabels_candidate.
  fold k. rewrite candidateLabels_length by (rewrite Hs; exact Hlen).
  unfold subOverlay, remainderOverlay.
  replace (k + 1) with (1 + k) by lia. reflexivity.
Qed.

Lemma PartialApplyOverlay_attribute_prefix o content schema name :
  head (steps o) = Some name ->
  attrDeclared schema name = true ->
  length (steps o) <> 1 ->
  PartialApplyOverlay o content schema = Some (content, None, [invalidArgError o]).
Proof.
  intros Hhd Hd Hlen. unfold PartialApplyOverlay.
  destruct (steps o) as [|x l]; [discriminate|]. injection Hhd as ->.
  apply findAttrS_declared in Hd as [attrS ->].
  apply Nat.eqb_neq in Hlen. rewrite Hlen. reflexivity.
Qed.

Lemma PartialApplyOverlay_block_short o content schema name blockS :
  head (steps o) = Some name ->
  matchesBlockSpec schema name blockS ->
  length (steps o) < 2 + length (blockS_LabelNames blockS) ->
  PartialApplyOverlay o content schema = Some (content, None, [invalidArgError o]).
Proof.
  intros Hhd [Ha Hb] Hlen. unfold PartialApplyOverlay.
  destruct (steps o) as [|x l]; [discriminate|]. injection Hhd as ->.
  rewrite Ha, Hb.
  replace (length (name :: l) <? 1 + 1 + length (blockS_LabelNames blockS))%nat with true
    by (symmetry; apply Nat.ltb_lt; exact Hlen).
  reflexivity.
Qed.

Lemma PartialApplyOverlay_unmatched o content schema name :
  head (steps o) = Some name ->
  attrDeclared schema name = false ->
  blockDeclared schema name = false ->
  PartialApplyOverlay o content schema = Some (content, Some o, []).
Proof.
  intros Hhd Ha%findAttrS_undeclared Hb%findBlockS_undeclared.
  unfold PartialApplyOverlay. destruct (steps o) as [|x l]; [discriminate|].
  injection Hhd as ->. rewrite Ha, Hb. reflexivity.
Qed.

(** ** Text of the diagnostics *)

Lemma prefix_append (p post : string) : String.prefix p (p ++ post) = true.
Proof.
  induction p as [|c p IH]; simpl; [destruct post; reflexivity|].
  destruct (Ascii.ascii_dec c c); [exact IH | contradiction].
Qed.

Lemma Contains_append (pre p post : string) : Contains (pre ++ (p ++ post)) p = true.
Proof.
  induction pre as [|c pre IH].
  - change ("" ++ (p ++ post))%string with (p ++ post)%string.
    pose proof (prefix_append p post) as Hp.
    destruct (p ++ post)%string; cbn [Contains]; rewrite Hp; reflexivity.
  - simpl. rewrite IH. apply orb_true_r.
Qed.

Lemma append_assoc3 (a b c : string) : ((a ++ b) ++ c = a ++ (b ++ c))%string.
Proof.
  induction a as [|x a IH]; [reflexivity|].
  change (String x ((a ++ b) ++ c) = String x (a ++ (b ++ c)))%string.
  f_equal. exact IH.
Qed.

Lemma invalidArgError_detail_plain o :
  plainText (fullPath o) = true ->
  diag_Detail (invalidArgError o)
  = (("Unexpected argument " ++ String dquote "") ++ (fullPath o ++ String dquote "."))%string.
Proof.
  intros Hp. apply bool_decide_eq_true in Hp.
  unfold invalidArgError, Quote; cbn [diag_Detail]. rewrite Hp.
  rewrite (append_assoc3 "Unexpected argument " (String dquote "")).
  f_equal.
  change (String dquote ((fullPath o ++ String dquote "") ++ ".")
          = String dquote (fullPath o ++ String dquote "."))%string.
  f_equal. apply (append_assoc3 (fullPath o) (String dquote "") ".").
Qed.

End Facts.

(** ** Attribute overlays *)

(** C1.  For an attribute name [a] that the schema declares and every value,
    the single-step overlay [a=v] writes attribute [a] into the content
    (replacing or inserting it) as the literal string [v] with a zero range,
    returns no leftover and no diagnostics, under [PartialApplyOverlay] and
    under [ApplyOverlay]; nothing else of the content changes, and the content
    decoded through the composition view has [a] equal to [v]. *)
Theorem C1_attribute_overlay_sets_literal {B} `{HclBody B}
    (o : cliArgOverlay) (a : string) (content : BodyContent B) (schema : BodySchema) :
  steps o = [a] ->
  attrDeclared schema a = true ->
  let attr := {| attr_Name := a;
                 attr_Expr := StaticExpr (StringVal (val o)) zeroRange;
                 attr_Range := zeroRange;
                 attr_NameRange := zeroRange |} in
  (exists content',
      PartialApplyOverlay o content schema = Some (content', None, [])
      /\ ApplyOverlay o content schema = Some (content', [])
      /\ content_Attributes content' = <[a := attr]> (content_Attributes content)
      /\ content_Attributes content' !! a = Some attr
      /\ content_Blocks content' = content_Blocks content
      /\ content_MissingItemRange content' = content_MissingItemRange content)
  /\ exprValue (attr_Expr attr) = Some (StringVal (val o))
  /\ exprRange (attr_Expr attr) = zeroRange
  /\ (forall (body : Body B) c0 d0,
        Content body (schemaNoRequired schema) = Some (c0, d0) ->
        exists c d,
          Content (ApplyOverlays body [o]) schema = Some (c, d)
          /\ content_Attributes c !! a = Some attr).
Proof.
  intros Hs Hd attr.
  split; [|split; [reflexivity|split; [reflexivity|]]].
  - exists (setAttribute content a (overlayAttribute o a)).
    unfold ApplyOverlay.
    rewrite (PartialApplyOverlay_attribute o content schema a Hs Hd).
    repeat split. simpl. apply lookup_insert_eq.
  - intros body c0 d0 Hc0. simpl.
    rewrite Hc0. unfold ApplyOverlay.
    rewrite (PartialApplyOverlay_attribute o c0 (schemaNoRequired schema) a Hs)
      by (rewrite attrDeclared_schemaNoRequired; exact Hd).
    simpl. eexists _, _. split; [reflexivity|].
    simpl. apply lookup_insert_eq.
Qed.

Lemma C1_attribute_overlay_witness :
  steps ioModeOverlay = ["io_mode"]
  /\ attrDeclared rootSchema "io_mode" = true
  /\ exists content',
       PartialApplyOverlay ioModeOverlay configContent rootSchema = Some (content', None, [])
       /\ content_Attributes content' !! "io_mode"
          = Some (mkAttribute "io_mode" (StaticExpr (StringVal "blocking") zeroRange)
                    zeroRange zeroRange).
Proof.
  split; [reflexivity|]. split; [reflexivity|].
  destruct (C1_attribute_overlay_sets_literal ioModeOverlay "io_mode" configContent
              rootSchema eq_refl eq_refl) as [(c' & Hp & _ & _ & Hl & _) _].
  exists c'. split; [exact Hp | exact Hl].
Defined.

(** ** Names the schema does not declare *)

(** C7.  When the first step is neither an attribute name nor a block type of
    the schema, [PartialApplyOverlay] returns the content unchanged, the
    overlay itself as the leftover, and no diagnostics; [ApplyOverlay] returns
    the content unchanged with one error diagnostic, "Unexpected argument"
    with the quoted full path. *)
Theorem C7_unmatched_first_step {B} `{HclBody B}
    (o : cliArgOverlay) (name : string) (content : BodyContent B) (schema : BodySchema) :
  head (steps o) = Some name ->
  attrDeclared schema name = false ->
  blockDeclared schema name = false ->
  PartialApplyOverlay o content schema = Some (content, Some o, [])
  /\ ApplyOverlay o content schema
     = Some (content,
             [ {| diag_Severity := DiagError;
                  diag_Summary := "Invalid argument";
                  diag_Detail := "Unexpected argument " ++ Quote (fullPath o) ++ ".";
                  diag_Subject := None |} ]).
Proof.
  intros Hhd Ha Hb.
  pose proof (PartialApplyOverlay_unmatched o content schema name Hhd Ha Hb) as Hp.
  split; [exact Hp|]. unfold ApplyOverlay. rewrite Hp. reflexivity.
Qed.

Lemma C7_witness_json_option :
  head (steps jsonOverlay) = Some "json"
  /\ attrDeclared rootSchema "json" = false
  /\ blockDeclared rootSchema "json" = false
  /\ PartialApplyOverlay jsonOverlay configContent rootSchema
     = Some (configContent, Some jsonOverlay, [])
  /\ (snd <$> ApplyOverlay jsonOverlay configContent rootSchema)
     = Some [invalidArgError jsonOverlay].
Proof.
  split; [reflexivity|]. split; [reflexivity|]. split; [reflexivity|].
  destruct (C7_unmatched_first_step jsonOverlay "json" configContent rootSchema
              eq_refl eq_refl eq_refl) as [Hp Ha].
  split; [exact Hp|]. rewrite Ha. reflexivity.
Defined.

(** ** The leftover of a partial application *)

(** C10.  Whenever [PartialApplyOverlay] returns, its leftover is nil or the
    receiver itself, with all its steps, its full path and its value; it is
    the receiver exactly when the schema declares the first step neither as an
    attribute nor as a block type, and then the content is returned as it was.
    It returns for every overlay that has a step. *)
Theorem C10_leftover_is_nil_or_receiver {B} `{HclBody B}
    (o : cliArgOverlay) (content : BodyContent B) (schema : BodySchema) :
  steps o <> [] ->
  exists content' remain diags,
    PartialApplyOverlay o content schema = Some (content', remain, diags)
    /\ (remain = None \/ remain = Some o)
    /\ (remain = Some o <->
        exists name, head (steps o) = Some name
                     /\ attrDeclared schema name = false
                     /\ blockDeclared schema name = false)
    /\ (remain = Some o -> content' = content /\ diags = []).
Proof.
  intros Hne. unfold PartialApplyOverlay.
  destruct (steps o) as [|name rest] eqn:Hs; [contradiction|].
  destruct (findAttrS schema name) as [attrS|] eqn:Ha.
  - assert (Hd : attrDeclared schema name = true)
      by (apply findAttrS_declared; rewrite Ha; eauto).
    destruct (negb _); eexists _, _, _;
      (split; [reflexivity|]); (split; [by left|]);
      (split; [|discriminate]);
      (split; [discriminate|]); intros (n & [= <-] & Hn & _); congruence.
  - destruct (findBlockS schema name) as [blockS|] eqn:Hb.
    + assert (Hd : blockDeclared schema name <> false)
        by (rewrite findBlockS_undeclared; congruence).
      destruct (_ <? _)%nat; [|cbv zeta; destruct (overrideFirstBlock _ _ _ _)];
        eexists _, _, _; (split; [reflexivity|]); (split; [by left|]);
        (split; [|discriminate]);
        (split; [discriminate|]); intros (n & [= <-] & _ & Hn); congruence.
    + eexists _, _, _. split; [reflexivity|]. split; [by right|].
      split; [|auto]. split; [|reflexivity].
      intros _. exists name. split; [reflexivity|].
      split; [by apply findAttrS_undeclared | by apply findBlockS_undeclared].
Qed.

Lemma C10_leftover_witness :
  steps listenOverlay <> []
  /\ exists content' remain diags,
       PartialApplyOverlay listenOverlay configContent rootSchema
       = Some (content', remain, diags)
       /\ (remain = None \/ remain = Some listenOverlay).
Proof.
  split; [discriminate|].
  destruct (C10_leftover_is_nil_or_receiver listenOverlay configContent rootSchema)
    as (c & r & d & Hp & Hr & _); [discriminate|].
  exists c, r, d. split; [exact Hp | exact Hr].
Defined.

(** ** Block overlays *)

(** C2, as the code has it.  When the first step is resolved to a block spec
    of [k] label names, the overlay has at least [2 + k] steps, and some block
    of the content has the block type and exactly the candidate labels, then
    [PartialApplyOverlay] wraps the body of the first such block, in the order
    of the content, with the sub-overlay; the blocks before it and after it
    (later blocks of the same header among them), the header and ranges of the
    block itself, and the attributes are unchanged; there is no leftover and
    no diagnostic. *)
Theorem C2_first_matching_block_wrapped {B} `{HclBody B}
    (o : cliArgOverlay) (name : string) (blockS : BlockHeaderSchema)
    (content : BodyContent B) (schema : BodySchema) :
  head (steps o) = Some name ->
  matchesBlockSpec schema name blockS ->
  2 + length (blockS_LabelNames blockS) <= length (steps o) ->
  existsb (hasHeader (blockS_Type blockS)
             (candidateLabels o (length (blockS_LabelNames blockS))))
          (content_Blocks content) = true ->
  let k := length (blockS_LabelNames blockS) in
  exists content' pre blk post,
    PartialApplyOverlay o content schema = Some (content', None, [])
    /\ content_Blocks content = pre ++ blk :: post
    /\ existsb (hasHeader (blockS_Type blockS) (candidateLabels o k)) pre = false
    /\ hasHeader (blockS_Type blockS) (candidateLabels o k) blk = true
    /\ content_Blocks content'
       = pre ++ {| block_Type := block_Type blk;
                   block_Labels := block_Labels blk;
                   block_Body := applyBody (block_Body blk) [remainderOverlay o k];
                   block_DefRange := block_DefRange blk;
                   block_TypeRange := block_TypeRange blk;
                   block_LabelRanges := block_LabelRanges blk |} :: post
    /\ content_Attributes content' = content_Attributes content
    /\ content_MissingItemRange content' = content_MissingItemRange content.
Proof.
  intros Hhd Hm Hlen Hex k.
  destruct (first_header_split _ _ _ Hex) as (pre & blk & post & Hblocks & Hpre & Hblk).
  rewrite (PartialApplyOverlay_block o content schema name blockS Hhd Hm Hlen).
  fold k in Hpre, Hblk |- *. rewrite Hblocks.
  rewrite (overrideFirstBlock_first pre post blk _ _ _ Hpre Hblk).
  eexists _, pre, blk, post. split; [reflexivity|].
  repeat split; assumption.
Qed.

Lemma C2_first_matching_block_witness :
  head (steps listenOverlay) = Some "service"
  /\ matchesBlockSpec rootSchema "service" (mkBlockHeaderSchema "service" ["type"; "name"])
  /\ 2 + 2 <= length (steps listenOverlay)
  /\ existsb (hasHeader "service" (candidateLabels listenOverlay 2))
       (content_Blocks configContent) = true
  /\ exists content',
       PartialApplyOverlay listenOverlay configContent rootSchema = Some (content', None, [])
       /\ map block_Body (content_Blocks content')
          = [applyBody (BaseBody serviceDoc)
               [mkCliArgOverlay "service.http.web_proxy.listen_addr" ["listen_addr"]
                  "127.0.0.1:2000"]].
Proof.
  split; [reflexivity|]. split; [split; reflexivity|].
  split; [vm_compute; lia|]. split; [reflexivity|].
  destruct (C2_first_matching_block_wrapped listenOverlay "service"
              (mkBlockHeaderSchema "service" ["type"; "name"]) configContent rootSchema
              eq_refl (conj eq_refl eq_refl) (le_n 4) eq_refl)
    as (c' & pre & blk & post & Hp & _).
  exists c'. split; [exact Hp|].
  vm_compute in Hp. injection Hp as <-. reflexivity.
Defined.

(** C2 as it is stated fails on an overlay that stops at the labels: the
    first step is a block type of the schema, the content has a block of that
    type with exactly the candidate labels, and yet no body is wrapped: the
    content comes back as it was, with an error diagnostic. *)
Lemma C2_counterexample_path_ends_at_labels :
  let o := {| fullPath := "service.http.web_proxy";
              steps := ["service"; "http"; "web_proxy"];
              val := "x" |} in
  matchesBlockSpec rootSchema "service" (mkBlockHeaderSchema "service" ["type"; "name"])
  /\ candidateLabels o 2 = ["http"; "web_proxy"]
  /\ existsb (hasHeader "service" (candidateLabels o 2)) (content_Blocks configContent) = true
  /\ PartialApplyOverlay o configContent rootSchema
     = Some (configContent, None, [invalidArgError o])
  /\ map block_Body (content_Blocks configContent) = [BaseBody serviceDoc]
  /\ ~ (exists content' blk,
          PartialApplyOverlay o configContent rootSchema = Some (content', None, [])
          /\ blk ∈ content_Blocks content'
          /\ block_Body blk = applyBody (BaseBody serviceDoc) [remainderOverlay o 2]).
Proof.
  cbv zeta. split; [split; reflexivity|].
  split; [reflexivity|]. split; [reflexivity|].
  split; [reflexivity|]. split; [reflexivity|].
  intros (c' & blk & Hp & _). vm_compute in Hp. discriminate Hp.
Qed.

(** C3.  When the first step is resolved to a block spec of [k] label names,
    the overlay has at least [2 + k] steps, and no block of the content has
    the block type and the candidate labels, [PartialApplyOverlay] appends
    exactly one block at the end of the blocks of the content: its type is
    the block type, its labels are the [k] candidate steps, its label ranges
    are [k] zero ranges, its body is the sub-overlay of the remaining steps
    applied to the empty body.  The blocks that were there are unchanged, in
    their order, and so are the attributes. *)
Theorem C3_new_block_appended {B} `{HclBody B}
    (o : cliArgOverlay) (name : string) (blockS : BlockHeaderSchema)
    (content : BodyContent B) (schema : BodySchema) :
  head (steps o) = Some name ->
  matchesBlockSpec schema name blockS ->
  2 + length (blockS_LabelNames blockS) <= length (steps o) ->
  existsb (hasHeader (blockS_Type blockS)
             (candidateLabels o (length (blockS_LabelNames blockS))))
          (content_Blocks content) = false ->
  let k := length (blockS_LabelNames blockS) in
  exists content' block,
    PartialApplyOverlay o content schema = Some (content', None, [])
    /\ content_Blocks content' = content_Blocks content ++ [block]
    /\ block_Type block = blockS_Type blockS
    /\ block_Labels block = take k (drop 1 (steps o))
    /\ length (block_Labels block) = k
    /\ block_LabelRanges block = replicate k zeroRange
    /\ block_Body block
       = applyBody (BaseBody EmptyBody)
           [{| fullPath := fullPath o; steps := drop (1 + k) (steps o); val := val o |}]
    /\ content_Attributes content' = content_Attributes content
    /\ content_MissingItemRange content' = content_MissingItemRange content.
Proof.
  intros Hhd Hm Hlen Hno k.
  rewrite (PartialApplyOverlay_block o content schema name blockS Hhd Hm Hlen).
  fold k in Hno |- *. rewrite (overrideFirstBlock_none _ _ _ _ Hno).
  eexists _, _. split; [reflexivity|].
  split; [reflexivity|]. split; [reflexivity|]. split; [reflexivity|].
  split; [apply candidateLabels_length; exact Hlen|].
  split; [|repeat split].
  simpl. rewrite candidateLabels_length by exact Hlen. reflexivity.
Qed.

Lemma C3_new_block_witness :
  head (steps gopherOverlay) = Some "service"
  /\ matchesBlockSpec rootSchema "service" (mkBlockHeaderSchema "service" ["type"; "name"])
  /\ 2 + 2 <= length (steps gopherOverlay)
  /\ existsb (hasHeader "service" (candidateLabels gopherOverlay 2))
       (content_Blocks configContent) = false
  /\ exists content' block,
       PartialApplyOverlay gopherOverlay configContent rootSchema = Some (content', None, [])
       /\ content_Blocks content' = content_Blocks configContent ++ [block]
       /\ block_Labels block = ["gopher"; "proxy"].
Proof.
  split; [reflexivity|]. split; [split; reflexivity|].
  split; [vm_compute; lia|]. split; [reflexivity|].
  destruct (C3_new_block_appended gopherOverlay "service"
              (mkBlockHeaderSchema "service" ["type"; "name"]) configContent rootSchema
              eq_refl (conj eq_refl eq_refl) (le_n 4) eq_refl)
    as (c' & blk & Hp & Hb & _ & Hl & _).
  exists c', blk. split; [exact Hp|]. split; [exact Hb | exact Hl].
Defined.

(** ** The composition view *)

Section ViewFacts.
Context {B : Type} `{HclBody B}.

Lemma applyEach_app (ovs1 ovs2 : list cliArgOverlay) modSchema
    (content : BodyContent B) diags :
  applyEach (ovs1 ++ ovs2) modSchema content diags
  = match applyEach ovs1 modSchema content diags with
    | Some (content', diags') => applyEach ovs2 modSchema content' diags'
    | None => None
    end.
Proof.
  revert content diags. induction ovs1 as [|ov l IH]; intros content diags; simpl.
  - reflexivity.
  - destruct (ApplyOverlay ov content modSchema) as [[c' more]|]; [apply IH | reflexivity].
Qed.

(** The overlays only add diagnostics, after those already there. *)
Lemma applyEach_diags (ovs : list cliArgOverlay) modSchema
    (content content' : BodyContent B) diags diags' :
  applyEach ovs modSchema content diags = Some (content', diags') ->
  exists more, diags' = diags ++ more.
Proof.
  revert content diags. induction ovs as [|ov l IH]; intros content diags; simpl.
  - intros [= <- <-]. exists []. by rewrite app_nil_r.
  - destruct (ApplyOverlay ov content modSchema) as [[c1 more]|]; [|discriminate].
    intros (more' & ->)%IH. exists (more ++ more'). by rewrite app_assoc.
Qed.

Lemma checkRequired_closed (b : Body B) (result : BodyContent B) attrs diags :
  checkRequired b result attrs diags
  = diags ++ map (missingRequiredDiag b)
      (List.filter (fun attrS => attrS_Required attrS
                      && negb (bool_decide (is_Some (content_Attributes result !! attrS_Name attrS))))
         attrs).
Proof.
  revert diags. induction attrs as [|attrS l IH]; intros diags; simpl.
  - by rewrite app_nil_r.
  - destruct (attrS_Required attrS); simpl; [|apply IH].
    destruct (content_Attributes result !! attrS_Name attrS) as [x|] eqn:Hx.
    + rewrite bool_decide_eq_true_2 by eauto. simpl. apply IH.
    + rewrite bool_decide_eq_false_2 by (intros [? ?]; discriminate). simpl.
      rewrite IH, <- app_assoc. reflexivity.
Qed.

Lemma Content_applyBody (inner : Body B) overlays schema :
  Content (applyBody inner overlays) schema
  = match Content inner (schemaNoRequired schema) with
    | None => None
    | Some (c0, d0) =>
        match applyEach overlays (schemaNoRequired schema) c0 d0 with
        | None => None
        | Some (c, d) =>
            Some (c, d ++ missingRequired (applyBody inner overlays) c schema)
        end
    end.
Proof.
  simpl. destruct (Content inner (schemaNoRequired schema)) as [[c0 d0]|]; [|reflexivity].
  destruct (applyEach overlays (schemaNoRequired schema) c0 d0) as [[c d]|]; [|reflexivity].
  unfold prepareContent. rewrite checkRequired_closed. reflexivity.
Qed.

(** The leftover of one partial application, by the schema alone. *)
Lemma PartialApplyOverlay_leftover o (content content' : BodyContent B) schema remain diags :
  PartialApplyOverlay o content schema = Some (content', remain, diags) ->
  remain = if unmatched schema o then Some o else None.
Proof.
  unfold PartialApplyOverlay, unmatched.
  destruct (steps o) as [|name rest]; [discriminate|].
  change (head (name :: rest)) with (Some name). cbv beta iota.
  destruct (findAttrS schema name) as [attrS|] eqn:Ha.
  - assert (Hd : attrDeclared schema name = true)
      by (apply findAttrS_declared; rewrite Ha; eauto).
    rewrite Hd. destruct (negb (_ =? _)%nat); intros [= _ <- _]; reflexivity.
  - apply findAttrS_undeclared in Ha as Hd. rewrite Hd.
    destruct (findBlockS schema name) as [blockS|] eqn:Hb.
    + assert (Hdb : blockDeclared schema name = true).
      { destruct (blockDeclared schema name) eqn:E; [reflexivity|].
        apply findBlockS_undeclared in E. congruence. }
      rewrite Hdb.
      destruct (_ <? _)%nat; [|cbv zeta; destruct (overrideFirstBlock _ _ _ _)];
        intros [= _ <- _]; reflexivity.
    + apply findBlockS_undeclared in Hb as Hdb. rewrite Hdb.
      intros [= _ <- _]. reflexivity.
Qed.

(** The overlays [PartialContent] keeps for the remainder are the overlays
    of the view that the schema does not match, whole and in their order. *)
Lemma partialApplyEach_remain (overlays : list cliArgOverlay) modSchema
    (content content' : BodyContent B) diags diags' acc remainOverlays :
  partialApplyEach overlays modSchema content diags acc
  = Some (content', diags', remainOverlays) ->
  remainOverlays = acc ++ List.filter (unmatched modSchema) overlays.
Proof.
  revert content diags acc.
  induction overlays as [|ov l IH]; intros content diags acc; simpl.
  - intros [= _ _ <-]. by rewrite app_nil_r.
  - destruct (PartialApplyOverlay ov content modSchema) as [[[c1 rem] more]|] eqn:Hp;
      [|discriminate].
    apply PartialApplyOverlay_leftover in Hp as ->.
    intros ->%IH. destruct (unmatched modSchema ov); [|reflexivity].
    by rewrite <- app_assoc.
Qed.

Lemma PartialContent_remainder (inner : Body B) overlays schema content remain diags :
  PartialContent (applyBody inner overlays) schema = Some (content, remain, diags) ->
  exists innerRemain,
    remain = ApplyOverlays innerRemain
               (List.filter (unmatched (schemaNoRequired schema)) overlays).
Proof.
  simpl.
  destruct (PartialContent inner (schemaNoRequired schema)) as [[[c0 r0] d0]|];
    [|discriminate].
  destruct (partialApplyEach overlays (schemaNoRequired schema) c0 d0 [])
    as [[[c1 d1] ovs]|] eqn:Hp; [|discriminate].
  apply partialApplyEach_remain in Hp as ->.
  intros [= _ <- _]. exists r0. reflexivity.
Qed.

End ViewFacts.

(** C4.  The view applies its overlays from left to right, the second on the
    content the first returned, so of two overlays that set the same declared
    attribute the last wins: after [[a=v1, a=v2]] the attribute [a] is the
    literal [v2], after [[a=v2, a=v1]] it is the literal [v1]; with [v1 = 1]
    and [v2 = 2] these are the two sequences of the claim. *)
Theorem C4_last_overlay_wins {B} `{HclBody B}
    (body : Body B) (schema : BodySchema) (a : string) (o1 o2 : cliArgOverlay)
    (c0 : BodyContent B) (d0 : Diagnostics) :
  attrDeclared schema a = true ->
  steps o1 = [a] ->
  steps o2 = [a] ->
  Content body (schemaNoRequired schema) = Some (c0, d0) ->
  let literal v := {| attr_Name := a;
                      attr_Expr := StaticExpr (StringVal v) zeroRange;
                      attr_Range := zeroRange;
                      attr_NameRange := zeroRange |} in
  (exists c1 c d,
      ApplyOverlay o1 c0 (schemaNoRequired schema) = Some (c1, [])
      /\ ApplyOverlay o2 c1 (schemaNoRequired schema) = Some (c, [])
      /\ Content (ApplyOverlays body [o1; o2]) schema = Some (c, d)
      /\ content_Attributes c !! a = Some (literal (val o2))
      /\ content_Attributes c = <[a := literal (val o2)]> (content_Attributes c0)
      /\ content_Blocks c = content_Blocks c0)
  /\ (exists c1 c d,
      ApplyOverlay o2 c0 (schemaNoRequired schema) = Some (c1, [])
      /\ ApplyOverlay o1 c1 (schemaNoRequired schema) = Some (c, [])
      /\ Content (ApplyOverlays body [o2; o1]) schema = Some (c, d)
      /\ content_Attributes c !! a = Some (literal (val o1))
      /\ content_Attributes c = <[a := literal (val o1)]> (content_Attributes c0)
      /\ content_Blocks c = content_Blocks c0).
Proof.
  intros Hd Hs1 Hs2 Hc0 literal.
  assert (Hd' : attrDeclared (schemaNoRequired schema) a = true)
    by (rewrite attrDeclared_schemaNoRequired; exact Hd).
  assert (Hap : forall o (c : BodyContent B), steps o = [a] ->
            ApplyOverlay o c (schemaNoRequired schema)
            = Some (setAttribute c a (literal (val o)), [])).
  { intros o c Hs. unfold ApplyOverlay.
    rewrite (PartialApplyOverlay_attribute o c _ a Hs Hd'). reflexivity. }
  split.
  - eexists _, _, _. split; [apply Hap, Hs1|]. split; [apply Hap, Hs2|].
    split; [|split; [apply lookup_insert_eq|split; [apply insert_insert_eq|reflexivity]]].
    change (ApplyOverlays body [o1; o2]) with (applyBody body [o1; o2]).
    rewrite Content_applyBody, Hc0. simpl applyEach.
    rewrite (Hap o1 c0 Hs1), (Hap o2 _ Hs2). reflexivity.
  - eexists _, _, _. split; [apply Hap, Hs2|]. split; [apply Hap, Hs1|].
    split; [|split; [apply lookup_insert_eq|split; [apply insert_insert_eq|reflexivity]]].
    change (ApplyOverlays body [o2; o1]) with (applyBody body [o2; o1]).
    rewrite Content_applyBody, Hc0. simpl applyEach.
    rewrite (Hap o2 c0 Hs2), (Hap o1 _ Hs1). reflexivity.
Qed.

Lemma C4_witness_io_mode :
  let o1 := {| fullPath := "io_mode"; steps := ["io_mode"]; val := "1" |} in
  let o2 := {| fullPath := "io_mode"; steps := ["io_mode"]; val := "2" |} in
  let value (r : option (BodyContent Doc * Diagnostics)) :=
    match r with
    | Some (c, _) => attr_Expr <$> content_Attributes c !! "io_mode"
    | None => None
    end in
  attrDeclared rootSchema "io_mode" = true
  /\ steps o1 = ["io_mode"]
  /\ steps o2 = ["io_mode"]
  /\ Content (BaseBody configDoc) (schemaNoRequired rootSchema) = Some (configContent, [])
  /\ value (Content (ApplyOverlays (BaseBody configDoc) [o1; o2]) rootSchema)
     = Some (StaticExpr (StringVal "2") zeroRange)
  /\ value (Content (ApplyOverlays (BaseBody configDoc) [o2; o1]) rootSchema)
     = Some (StaticExpr (StringVal "1") zeroRange).
Proof.
  cbv zeta.
  split; [reflexivity|]. split; [reflexivity|]. split; [reflexivity|].
  assert (Hc0 : Content (BaseBody configDoc) (schemaNoRequired rootSchema)
                = Some (configContent, [])) by reflexivity.
  split; [exact Hc0|].
  destruct (C4_last_overlay_wins (BaseBody configDoc) rootSchema "io_mode"
              {| fullPath := "io_mode"; steps := ["io_mode"]; val := "1" |}
              {| fullPath := "io_mode"; steps := ["io_mode"]; val := "2" |}
              configContent [] eq_refl eq_refl eq_refl Hc0)
    as [(c1 & c & d & _ & _ & Hc & Ha & _) (c1' & c' & d' & _ & _ & Hc' & Ha' & _)].
  rewrite Hc, Hc', Ha, Ha'. split; reflexivity.
Defined.

(** The example document without its required [io_mode], overlaid with
    [io_mode=blocking]: decoding the document alone reports the missing
    argument, decoding the view reports nothing. *)
Example required_supplied_by_overlay :
  let doc := mkDoc [] [] fileRange in
  map diag_Summary (snd (base_Content doc rootSchema)) = ["Missing required argument"]
  /\ (snd <$> Content (ApplyOverlays (BaseBody doc) [ioModeOverlay]) rootSchema) = Some [].
Proof. split; reflexivity. Qed.

(** The same document under a view whose overlay sets nothing required: one
    error, at the missing item range of the document. *)
Example required_still_missing :
  let doc := mkDoc [] [] fileRange in
  (snd <$> Content (ApplyOverlays (BaseBody doc) [gopherOverlay]) rootSchema)
  = Some [ {| diag_Severity := DiagError;
              diag_Summary := "Missing required argument";
              diag_Detail := "The argument " ++ Quote "io_mode"
                             ++ " is required, but no definition was found.";
              diag_Subject := Some fileRange |} ].
Proof. reflexivity. Qed.

(** ** Diagnostics of nested applications *)

(** C8.  The sub-overlay made for a block keeps the full path of the overlay.
    When the overlay is resolved to a block spec and has steps enough, the
    block it selects or creates gets a body wrapped with the sub-overlay; and
    when the nested schema declares the next step neither as an attribute nor
    as a block type, decoding that body reports the error "Unexpected
    argument" of the whole overlay, whose text contains the full path (for a
    path that [%q] prints as it is, as every path of identifiers and dots). *)
Theorem C8_nested_error_reports_full_path {B} `{HclBody B}
    (o : cliArgOverlay) (name next : string) (blockS : BlockHeaderSchema)
    (content : BodyContent B) (schema nested : BodySchema) :
  head (steps o) = Some name ->
  matchesBlockSpec schema name blockS ->
  2 + length (blockS_LabelNames blockS) <= length (steps o) ->
  head (drop (1 + length (blockS_LabelNames blockS)) (steps o)) = Some next ->
  attrDeclared nested next = false ->
  blockDeclared nested next = false ->
  plainText (fullPath o) = true ->
  let k := length (blockS_LabelNames blockS) in
  exists content' blk inner,
    PartialApplyOverlay o content schema = Some (content', None, [])
    /\ blk ∈ content_Blocks content'
    /\ hasHeader (blockS_Type blockS) (candidateLabels o k) blk = true
    /\ block_Body blk = applyBody inner [subOverlay o (drop (1 + k) (steps o))]
    /\ fullPath (subOverlay o (drop (1 + k) (steps o))) = fullPath o
    /\ (forall c0 d0,
          Content inner (schemaNoRequired nested) = Some (c0, d0) ->
          exists d, Content (block_Body blk) nested = Some (c0, d)
                    /\ invalidArgError o ∈ d)
    /\ diag_Severity (invalidArgError o) = DiagError
    /\ diag_Detail (invalidArgError o)
       = ("Unexpected argument " ++ String dquote (fullPath o ++ String dquote "."))%string
    /\ Contains (diag_Detail (invalidArgError o)) (fullPath o) = true.
Proof.
  intros Hhd Hm Hlen Hnext Ha Hb Hplain k.
  set (sub := subOverlay o (drop (1 + k) (steps o))).
  assert (Hdecode : forall inner c0 d0,
            Content inner (schemaNoRequired nested) = Some (c0, d0) ->
            exists d, Content (applyBody inner [sub]) nested = Some (c0, d)
                      /\ invalidArgError o ∈ d).
  { intros inner c0 d0 Hc0. rewrite Content_applyBody, Hc0. simpl applyEach.
    unfold ApplyOverlay.
    rewrite (PartialApplyOverlay_unmatched sub c0 (schemaNoRequired nested) next Hnext)
      by (rewrite ?attrDeclared_schemaNoRequired; assumption).
    eexists. split; [reflexivity|].
    change (invalidArgError sub) with (invalidArgError o). set_solver. }
  assert (Htext : diag_Detail (invalidArgError o)
                  = ("Unexpected argument "
                     ++ String dquote (fullPath o ++ String dquote "."))%string).
  { rewrite (invalidArgError_detail_plain o Hplain). reflexivity. }
  assert (Hcont : Contains (diag_Detail (invalidArgError o)) (fullPath o) = true).
  { rewrite (invalidArgError_detail_plain o Hplain). apply Contains_append. }
  rewrite (PartialApplyOverlay_block o content schema name blockS Hhd Hm Hlen).
  fold k.
  destruct (existsb (hasHeader (blockS_Type blockS) (candidateLabels o k))
              (content_Blocks content)) eqn:Hex.
  - destruct (first_header_split _ _ _ Hex) as (pre & blk & post & Hblocks & Hpre & Hblk).
    rewrite Hblocks, (overrideFirstBlock_first pre post blk _ _ _ Hpre Hblk).
    eexists _, _, (block_Body blk). split; [reflexivity|].
    split; [simpl; apply elem_of_app; right; left|].
    split; [exact Hblk|]. split; [reflexivity|]. split; [reflexivity|].
    split; [exact (Hdecode (block_Body blk))|]. auto.
  - rewrite (overrideFirstBlock_none _ _ _ _ Hex).
    eexists _, _, (BaseBody EmptyBody). split; [reflexivity|].
    split; [simpl; apply elem_of_app; right; left|].
    split; [unfold hasHeader; simpl; rewrite !bool_decide_eq_true_2; reflexivity|].
    split; [reflexivity|]. split; [reflexivity|].
    split; [exact (Hdecode (BaseBody EmptyBody))|]. auto.
Qed.

Lemma C8_nested_error_witness :
  head (steps invalidOverlay) = Some "service"
  /\ matchesBlockSpec rootSchema "service" (mkBlockHeaderSchema "service" ["type"; "name"])
  /\ 2 + 2 <= length (steps invalidOverlay)
  /\ head (drop (1 + 2) (steps invalidOverlay)) = Some "invalid"
  /\ attrDeclared serviceSchema "invalid" = false
  /\ blockDeclared serviceSchema "invalid" = false
  /\ plainText (fullPath invalidOverlay) = true
  /\ (exists content' blk,
        PartialApplyOverlay invalidOverlay configContent rootSchema
        = Some (content', None, [])
        /\ blk ∈ content_Blocks content'
        /\ block_Labels blk = ["http"; "web_proxy"]
        /\ exists c d, Content (block_Body blk) serviceSchema = Some (c, d)
                       /\ invalidArgError invalidOverlay ∈ d)
  /\ Contains (diag_Detail (invalidArgError invalidOverlay))
       "service.http.web_proxy.invalid" = true.
Proof.
  split; [reflexivity|]. split; [split; reflexivity|].
  split; [vm_compute; lia|]. split; [reflexivity|].
  split; [reflexivity|]. split; [reflexivity|]. split; [reflexivity|].
  destruct (C8_nested_error_reports_full_path invalidOverlay "service" "invalid"
              (mkBlockHeaderSchema "service" ["type"; "name"]) configContent
              rootSchema serviceSchema
              eq_refl (conj eq_refl eq_refl) (le_n 4) eq_refl eq_refl eq_refl eq_refl)
    as (c' & blk & inner & Hp & Hin & Hhdr & Hbody & _ & Hdec & _ & _ & Hcont).
  split; [|exact Hcont].
  exists c', blk. split; [exact Hp|]. split; [exact Hin|].
  split.
  { unfold hasHeader in Hhdr. apply andb_prop in Hhdr as [_ Hl].
    apply bool_decide_eq_true in Hl. exact Hl. }
  vm_compute in Hp. injection Hp as <-.
  apply list_elem_of_singleton in Hin. subst blk.
  simpl in Hbody. injection Hbody as <-.
  destruct (Hdec _ _ eq_refl) as (d & Hd & Hind).
  eexists _, d. split; [exact Hd | exact Hind].
Defined.

(** The scenario of the README from the raw token on: the token is parsed
    into the overlay, the root decode reports nothing, and decoding the
    body of the [service] block reports the unexpected argument with its full
    path, not with the suffix [invalid]. *)
Example readme_invalid_argument :
  ParseCLIArgument asciiIdentifier "service.http.web_proxy.invalid=foo"
  = (Some invalidOverlay, [])
  /\ match Content (ApplyOverlays (BaseBody configDoc) [invalidOverlay]) rootSchema with
     | Some (c, d) =>
         d = []
         /\ map (fun blk =>
                   (block_Labels blk,
                    map diag_Detail
                      (match Content (block_Body blk) serviceSchema with
                       | Some (_, d') => d'
                       | None => []
                       end)))
              (content_Blocks c)
            = [(["http"; "web_proxy"],
                [("Unexpected argument "
                  ++ String dquote ("service.http.web_proxy.invalid" ++ String dquote "."))%string])]
     | None => False
     end.
Proof. vm_compute. auto. Qed.

(** ** Applying an overlay twice *)

Section Idempotence.
Context {B : Type} `{HclBody B}.

Lemma contentRel_refl (R : Body B -> Body B -> Prop) (c : BodyContent B) :
  (forall b, R b b) -> contentRel R c c.
Proof.
  intros HR. repeat split.
  apply Forall_Forall2_diag, Forall_forall. intros b _. repeat split. apply HR.
Qed.

Lemma sameBody_refl n (b : Body B) : sameBody n b b.
Proof.
  revert b. induction n as [|n IH]; intros b; simpl; [exact I|].
  intros schema. destruct (Content b schema) as [[c d]|]; [|exact I].
  apply contentRel_refl, IH.
Qed.

Lemma hasHeader_setBody type want (blk : Block B) body :
  hasHeader type want (setBody blk body) = hasHeader type want blk.
Proof. reflexivity. Qed.

(** One more application of the same overlay changes the content at most by
    wrapping once more the body that the first application wrapped. *)
Lemma ApplyOverlay_twice (R : Body B -> Body B -> Prop) o
    (content c1 : BodyContent B) d1 schema :
  (forall b, R b b) ->
  (forall b sub, R (applyBody (applyBody b [sub]) [sub]) (applyBody b [sub])) ->
  ApplyOverlay o content schema = Some (c1, d1) ->
  exists c2 d2, ApplyOverlay o c1 schema = Some (c2, d2) /\ contentRel R c2 c1.
Proof.
  intros Hrefl Hwrap. unfold ApplyOverlay.
  destruct (steps o) as [|name rest] eqn:Hs.
  { unfold PartialApplyOverlay. rewrite Hs. discriminate. }
  assert (Hhd : head (steps o) = Some name) by (rewrite Hs; reflexivity).
  destruct (attrDeclared schema name) eqn:Hda.
  - destruct rest as [|step rest].
    + rewrite !(fun c => PartialApplyOverlay_attribute o c schema name Hs Hda).
      intros [= <- <-]. eexists _, _. split; [reflexivity|].
      split; [simpl; apply insert_insert_eq|]. split; [reflexivity|].
      apply Forall_Forall2_diag, Forall_forall. intros b _. repeat split. apply Hrefl.
    + assert (Hlen : length (steps o) <> 1) by (rewrite Hs; discriminate).
      rewrite !(fun c => PartialApplyOverlay_attribute_prefix o c schema name Hhd Hda Hlen).
      intros [= <- <-]. eexists _, _. split; [reflexivity|].
      apply contentRel_refl, Hrefl.
  - apply findAttrS_undeclared in Hda as Hfa.
    destruct (findBlockS schema name) as [blockS|] eqn:Hfb.
    + assert (Hm : matchesBlockSpec schema name blockS) by (split; assumption).
      destruct (le_lt_dec (2 + length (blockS_LabelNames blockS)) (length (steps o)))
        as [Hlen|Hlen].
      * rewrite !(fun c => PartialApplyOverlay_block o c schema name blockS Hhd Hm Hlen).
        set (k := length (blockS_LabelNames blockS)).
        set (type := blockS_Type blockS).
        set (want := candidateLabels o k).
        set (sub := remainderOverlay o k).
        destruct (existsb (hasHeader type want) (content_Blocks content)) eqn:Hex.
        -- destruct (first_header_split _ _ _ Hex)
             as (pre & blk & post & Hblocks & Hpre & Hblk).
           rewrite Hblocks, (overrideFirstBlock_first pre post blk _ _ sub Hpre Hblk).
           intros [= <- <-]. simpl content_Blocks.
           rewrite (overrideFirstBlock_first pre post _ _ _ sub Hpre)
             by (rewrite hasHeader_setBody; exact Hblk).
           eexists _, _. split; [reflexivity|].
           split; [reflexivity|]. split; [reflexivity|]. simpl.
           apply Forall2_app.
           ++ apply Forall_Forall2_diag, Forall_forall. intros b _.
              repeat split. apply Hrefl.
           ++ constructor; [repeat split; apply Hwrap|].
              apply Forall_Forall2_diag, Forall_forall. intros b _.
              repeat split. apply Hrefl.
        -- rewrite (overrideFirstBlock_none _ _ _ sub Hex).
           intros [= <- <-]. simpl content_Blocks.
           rewrite (overrideFirstBlock_first (content_Blocks content) [] _ _ _ sub Hex)
             by (unfold hasHeader, newBlock; simpl; rewrite !bool_decide_eq_true_2;
                 reflexivity).
           eexists _, _. split; [reflexivity|].
           split; [reflexivity|]. split; [reflexivity|]. simpl.
           apply Forall2_app.
           ++ apply Forall_Forall2_diag, Forall_forall. intros b _.
              repeat split. apply Hrefl.
           ++ constructor; [repeat split; apply Hwrap | constructor].
      * rewrite !(fun c => PartialApplyOverlay_block_short o c schema name blockS Hhd Hm Hlen).
        intros [= <- <-]. eexists _, _. split; [reflexivity|].
        apply contentRel_refl, Hrefl.
    + apply findBlockS_undeclared in Hfb.
      rewrite !(fun c => PartialApplyOverlay_unmatched o c schema name Hhd Hda Hfb).
      intros [= <- <-]. eexists _, _. split; [reflexivity|].
      apply contentRel_refl, Hrefl.
Qed.

Lemma applyEach_one (o : cliArgOverlay) modSchema (content : BodyContent B) diags :
  applyEach [o] modSchema content diags
  = match ApplyOverlay o content modSchema with
    | Some (c, more) => Some (c, diags ++ more)
    | None => None
    end.
Proof. simpl. destruct (ApplyOverlay o content modSchema) as [[c more]|]; reflexivity. Qed.

(** A body wrapped twice with an overlay decodes as the body wrapped once. *)
Lemma sameBody_wrapped_twice n (b : Body B) sub :
  sameBody n (applyBody (applyBody b [sub]) [sub]) (applyBody b [sub]).
Proof.
  revert b sub. induction n as [|n IH]; intros b sub; cbn [sameBody]; [exact I|].
  intros schema.
  rewrite (Content_applyBody (applyBody b [sub])), !(Content_applyBody b).
  rewrite schemaNoRequired_idem.
  destruct (Content b (schemaNoRequired schema)) as [[c0 d0]|]; [|exact I].
  rewrite !applyEach_one.
  destruct (ApplyOverlay sub c0 (schemaNoRequired schema)) as [[c1 d1]|] eqn:H1; [|exact I].
  rewrite applyEach_one.
  destruct (ApplyOverlay_twice (sameBody n) sub c0 c1 d1 (schemaNoRequired schema)
              (sameBody_refl n) (IH) H1) as (c2 & d2 & -> & Hrel).
  exact Hrel.
Qed.

End Idempotence.

(** C9.  For every overlay, every body and every schema, decoding the body
    under the overlay sequence [[o, o]] gives the same content as decoding it
    under [[o]], down to every nesting depth [n]: the same attributes with the
    same values, the same blocks in the same order with the same headers, and
    nested bodies that decode, under every schema, to the same content again.
    Both decodings return, or both panic (an overlay without steps). *)
Theorem C9_overlay_twice_same_content {B} `{HclBody B}
    (n : nat) (o : cliArgOverlay) (body : Body B) (schema : BodySchema) :
  sameDecodedResult n
    (Content (ApplyOverlays body [o; o]) schema)
    (Content (ApplyOverlays body [o]) schema).
Proof.
  change (ApplyOverlays body [o; o]) with (applyBody body [o; o]).
  change (ApplyOverlays body [o]) with (applyBody body [o]).
  rewrite !Content_applyBody.
  destruct (Content body (schemaNoRequired schema)) as [[c0 d0]|]; [|exact I].
  change [o; o] with ([o] ++ [o]). rewrite applyEach_app, !applyEach_one.
  destruct (ApplyOverlay o c0 (schemaNoRequired schema)) as [[c1 d1]|] eqn:H1; [|exact I].
  rewrite applyEach_one.
  destruct (ApplyOverlay_twice (sameBody n) o c0 c1 d1 (schemaNoRequired schema)
              (sameBody_refl n) (sameBody_wrapped_twice n) H1) as (c2 & d2 & -> & Hrel).
  exact Hrel.
Qed.

(** The overlay of the example applied twice: the [service] block is wrapped
    twice, and its body decodes to the same attribute as when wrapped once. *)
Example listen_overlay_twice :
  let decodeService (r : option (BodyContent Doc * Diagnostics)) :=
    match r with
    | Some (c, _) =>
        map (fun blk =>
               (block_Labels blk,
                match Content (block_Body blk) serviceSchema with
                | Some (c', _) => map_to_list (attr_Expr <$> content_Attributes c')
                | None => []
                end))
          (content_Blocks c)
    | None => []
    end in
  decodeService (Content (ApplyOverlays (BaseBody configDoc) [listenOverlay; listenOverlay])
                   rootSchema)
  = [(["http"; "web_proxy"],
      [("listen_addr", StaticExpr (StringVal "127.0.0.1:2000") zeroRange)])]
  /\ decodeService (Content (ApplyOverlays (BaseBody configDoc) [listenOverlay]) rootSchema)
     = [(["http"; "web_proxy"],
         [("listen_addr", StaticExpr (StringVal "127.0.0.1:2000") zeroRange)])].
Proof. split; vm_compute; reflexivity. Qed.

(** ** Extraction of the overlays from the command line *)

Section ExtractFacts.
Variable ValidIdentifier : string -> bool.

Lemma substring_all (s : string) : String.substring 0 (String.length s) s = s.
Proof. induction s as [|c s IH]; simpl; [reflexivity | by rewrite IH]. Qed.

(** A string splits at the index [IndexByte] finds. *)
Lemma IndexByte_split (s : string) (c : ascii) :
  (0 <= IndexByte s c)%Z ->
  s = (sliceTo s (IndexByte s c) ++ String c (sliceFrom s (IndexByte s c + 1)))%string.
Proof.
  induction s as [|x rest IH]; simpl IndexByte; [lia|].
  destruct (Ascii.eqb_spec x c) as [->|Hne].
  - intros _. unfold sliceTo, sliceFrom. simpl.
    rewrite Nat.sub_0_r, substring_all. reflexivity.
  - destruct (Z.ltb_spec (IndexByte rest c) 0) as [Hlt|Hge]; [lia|].
    intros _. specialize (IH Hge). unfold sliceTo, sliceFrom in *.
    replace (Z.to_nat (IndexByte rest c + 1))
      with (S (Z.to_nat (IndexByte rest c))) in * by lia.
    replace (Z.to_nat (IndexByte rest c + 1 + 1))
      with (S (S (Z.to_nat (IndexByte rest c)))) by lia.
    simpl.
    match goal with
    | |- _ = (String x ?a ++ ?b)%string => change (String x rest = String x (a ++ b)%string)
    end.
    f_equal. exact IH.
Qed.

Lemma HasPrefix_dashes (arg : string) :
  HasPrefix arg "--" = true -> arg = ("--" ++ sliceFrom arg 2)%string.
Proof.
  unfold HasPrefix, sliceFrom.
  destruct arg as [|a [|b rest]]; cbn [String.prefix]; try discriminate.
  - destruct (Ascii.ascii_dec "-" a); discriminate.
  - destruct (Ascii.ascii_dec "-" a) as [<-|]; [|discriminate].
    destruct (Ascii.ascii_dec "-" b) as [<-|]; [|discriminate].
    intros _. simpl. rewrite Nat.sub_0_r, substring_all. reflexivity.
Qed.

(** The token an overlay was parsed from. *)
Lemma ParseCLIArgument_token (raw : string) (ov : cliArgOverlay) diags :
  ParseCLIArgument ValidIdentifier raw = (Some ov, diags) ->
  raw = (fullPath ov ++ String "="%char (val ov))%string.
Proof.
  unfold ParseCLIArgument.
  destruct (Z.ltb_spec (IndexByte raw "=") 1) as [|Hge]; [discriminate|].
  destruct (HasErrors _); [discriminate|].
  intros [= <- _]. simpl. apply IndexByte_split. lia.
Qed.

(** Every overlay the loop returns was there before or comes from a token. *)
Lemma extractLoop_overlays (args : list string) schema remain overlays diags
    remain' overlays' diags' :
  extractLoop ValidIdentifier args schema remain overlays diags
  = (remain', overlays', diags') ->
  forall ov, ov ∈ overlays' ->
    ov ∈ overlays \/ ("--" ++ fullPath ov ++ String "="%char (val ov))%string ∈ args.
Proof.
  revert remain overlays diags.
  induction args as [|arg rest IH]; intros remain overlays diags; simpl.
  - intros [= _ <- _] ov Hov. by left.
  - destruct (bool_decide (arg = "--")).
    { intros [= _ <- _] ov Hov. by left. }
    destruct (negb (HasPrefix arg "--")) eqn:Hpre.
    { intros Hloop ov Hov. destruct (IH _ _ _ Hloop ov Hov); [by left|].
      right. by apply list_elem_of_further. }
    apply negb_false_iff in Hpre.
    destruct (negb (schemaMentions schema _)).
    { intros Hloop ov Hov. destruct (IH _ _ _ Hloop ov Hov); [by left|].
      right. by apply list_elem_of_further. }
    destruct (ParseCLIArgument ValidIdentifier (sliceFrom arg 2)) as [[o|] more] eqn:Hparse;
      intros Hloop ov Hov; (destruct (IH _ _ _ Hloop ov Hov) as [Hin|Hin];
        [|right; by apply list_elem_of_further]); [|by left].
    apply elem_of_app in Hin as [Hin|Hin]; [by left|].
    apply list_elem_of_singleton in Hin as ->.
    right. apply ParseCLIArgument_token in Hparse.
    rewrite <- Hparse, <- (HasPrefix_dashes arg Hpre). apply list_elem_of_here.
Qed.

End ExtractFacts.

(** C5.  For every token sequence and schema, the second result of
    [ExtractCLIOptions] is the token sequence it was given, whole and in
    order; the tokens that were parsed into overlays are still in it. *)
Theorem C5_remaining_tokens_are_the_input
    (ValidIdentifier : string -> bool) (args : list string) (schema : BodySchema) :
  exists overlays diags,
    ExtractCLIOptions ValidIdentifier args schema = (overlays, args, diags)
    /\ forall ov, ov ∈ overlays ->
         ("--" ++ fullPath ov ++ String "="%char (val ov))%string ∈ args.
Proof.
  unfold ExtractCLIOptions.
  destruct (extractLoop ValidIdentifier args schema [] [] [])
    as [[remain overlays] diags] eqn:Hloop.
  exists overlays, diags. split; [reflexivity|].
  intros ov Hov.
  destruct (extractLoop_overlays _ _ _ _ _ _ _ _ _ Hloop ov Hov) as [Hin|Hin];
    [|exact Hin].
  by apply elem_of_nil in Hin.
Qed.

(** The command line of the README: the option that is an overlay is
    returned among the remaining tokens, next to the ones that are not. *)
Example readme_command_line :
  ExtractCLIOptions asciiIdentifier
    ["config.hcl"; "--io_mode=blocking"; "--json"] rootSchema
  = ([ioModeOverlay], ["config.hcl"; "--io_mode=blocking"; "--json"], []).
Proof. reflexivity. Qed.

(** ** The cases of the package tests

    Each case of [TestParseCLIArgument], on the document model: the argument
    is parsed, the document overlaid and decoded. *)

Example test_override_root_attribute :
  let r := Content (overlaid (fooDoc "a") "foo=b" asciiIdentifier) fooSchema in
  decodedAttributes r = [("foo", StaticExpr (StringVal "b") zeroRange)]
  /\ diagnosticsOf r = [].
Proof. split; vm_compute; reflexivity. Qed.

Example test_new_root_attribute :
  let r := Content (overlaid (fooDoc "a") "bar=b" asciiIdentifier) fooBarSchema in
  (attr_Expr <$> (fst <$> r) ≫= (fun c => content_Attributes c !! "foo"))
  = Some (SyntaxExpr "a" fileRange)
  /\ (attr_Expr <$> (fst <$> r) ≫= (fun c => content_Attributes c !! "bar"))
     = Some (StaticExpr (StringVal "b") zeroRange)
  /\ diagnosticsOf r = [].
Proof. repeat split; vm_compute; reflexivity. Qed.

Example test_unwanted_root_attribute :
  let r := Content (overlaid (fooDoc "a") "bar=b" asciiIdentifier) fooSchema in
  decodedAttributes r = [("foo", SyntaxExpr "a" fileRange)]
  /\ diagnosticsOf r = [("Unexpected argument " ++ String dquote ("bar" ++ String dquote "."))%string].
Proof. split; vm_compute; reflexivity. Qed.

Example test_override_in_unlabelled_block :
  let doc := mkDoc [] [mkDocBlock "block" [] (fooDoc "a")] fileRange in
  let r := Content (overlaid doc "block.foo=b" asciiIdentifier) noLabelSchema in
  decodedBlocks fooSchema r = [([], [("foo", StaticExpr (StringVal "b") zeroRange)])]
  /\ diagnosticsOf r = [].
Proof. split; vm_compute; reflexivity. Qed.

Example test_new_attribute_in_unlabelled_block :
  let doc := mkDoc [] [mkDocBlock "block" [] (mkDoc [] [] fileRange)] fileRange in
  let r := Content (overlaid doc "block.foo=b" asciiIdentifier) noLabelSchema in
  decodedBlocks fooSchema r = [([], [("foo", StaticExpr (StringVal "b") zeroRange)])]
  /\ diagnosticsOf r = [].
Proof. split; vm_compute; reflexivity. Qed.

Example test_override_in_block_with_one_label :
  let doc := mkDoc [] [mkDocBlock "block" ["a"] (fooDoc "a");
                       mkDocBlock "block" ["b"] (fooDoc "b")] fileRange in
  let r := Content (overlaid doc "block.b.foo=c" asciiIdentifier) oneLabelSchema in
  decodedBlocks fooSchema r
  = [(["a"], [("foo", SyntaxExpr "a" fileRange)]);
     (["b"], [("foo", StaticExpr (StringVal "c") zeroRange)])]
  /\ diagnosticsOf r = [].
Proof. split; vm_compute; reflexivity. Qed.

Example test_create_block_with_one_label :
  let doc := mkDoc [] [mkDocBlock "block" ["a"] (fooDoc "a")] fileRange in
  let r := Content (overlaid doc "block.b.foo=b" asciiIdentifier) oneLabelSchema in
  decodedBlocks fooSchema r
  = [(["a"], [("foo", SyntaxExpr "a" fileRange)]);
     (["b"], [("foo", StaticExpr (StringVal "b") zeroRange)])]
  /\ diagnosticsOf r = [].
Proof. split; vm_compute; reflexivity. Qed.

(** Two blocks of one header: only the first is overridden. *)
Example duplicate_headers_first_wins :
  let doc := mkDoc [] [mkDocBlock "block" ["b"] (fooDoc "x");
                       mkDocBlock "block" ["b"] (fooDoc "y")] fileRange in
  let r := Content (overlaid doc "block.b.foo=c" asciiIdentifier) oneLabelSchema in
  decodedBlocks fooSchema r
  = [(["b"], [("foo", StaticExpr (StringVal "c") zeroRange)]);
     (["b"], [("foo", SyntaxExpr "y" fileRange)])].
Proof. vm_compute; reflexivity. Qed.

(** * Further properties *)

(** ** Parsing one argument *)

Section ParseFacts.
Variable ValidIdentifier : string -> bool.

Lemma append_String (x : ascii) (a b : string) :
  (String x a ++ b)%string = String x (a ++ b)%string.
Proof. reflexivity. Qed.

Lemma prefix_empty (s : string) : String.prefix "" s = true.
Proof. destruct s; reflexivity. Qed.

Lemma prefix_one (c x : ascii) (rest : string) :
  String.prefix (String c "") (String x rest) = bool_decide (c = x).
Proof.
  cbn [String.prefix]. destruct (Ascii.ascii_dec c x) as [->|Hne].
  - rewrite prefix_empty, bool_decide_eq_true_2; reflexivity.
  - rewrite bool_decide_eq_false_2; [reflexivity | assumption].
Qed.

(** [IndexByte] finds nothing exactly when the byte does not occur. *)
Lemma IndexByte_Contains (s : string) (c : ascii) :
  IndexByte s c = (-1)%Z <-> Contains s (String c "") = false.
Proof.
  induction s as [|x rest IH]; [split; reflexivity|].
  cbn [IndexByte Contains]. rewrite prefix_one.
  destruct (Ascii.eqb_spec x c) as [->|Hne].
  - rewrite bool_decide_eq_true_2 by reflexivity. simpl. split; discriminate.
  - rewrite bool_decide_eq_false_2 by congruence. simpl. rewrite <- IH.
    destruct (Z.ltb_spec (IndexByte rest c) 0); split; intros; lia || auto.
    assert (IndexByte rest c = -1 \/ 0 <= IndexByte rest c)%Z as [?|?]; [|lia|lia].
    clear. induction rest as [|y r IHr]; simpl; [by left|].
    destruct (Ascii.eqb y c); [right; lia|].
    destruct (Z.ltb_spec (IndexByte r c) 0); [by left | right; lia].
Qed.

Lemma IndexByte_range (s : string) (c : ascii) :
  (IndexByte s c = -1 \/ 0 <= IndexByte s c < Z.of_nat (String.length s))%Z.
Proof.
  induction s as [|x rest IH]; [by left|]. cbn [IndexByte String.length].
  destruct (Ascii.eqb x c); [right; lia|].
  destruct (Z.ltb_spec (IndexByte rest c) 0); [by left | right; lia].
Qed.

Lemma IndexByte_HasPrefix (s : string) (c : ascii) :
  HasPrefix s (String c "") = true -> IndexByte s c = 0%Z.
Proof.
  unfold HasPrefix. destruct s as [|x rest]; [discriminate|].
  rewrite prefix_one. intros ->%bool_decide_eq_true.
  simpl. rewrite Ascii.eqb_refl. reflexivity.
Qed.

(** The part before the first occurrence does not hold the byte. *)
Lemma IndexByte_sliceTo (s : string) (c : ascii) :
  (0 <= IndexByte s c)%Z -> IndexByte (sliceTo s (IndexByte s c)) c = (-1)%Z.
Proof.
  unfold sliceTo. induction s as [|x rest IH]; cbn [IndexByte]; [lia|].
  destruct (Ascii.eqb_spec x c) as [->|Hne]; [reflexivity|].
  destruct (Z.ltb_spec (IndexByte rest c) 0) as [|Hge]; [lia|]. intros _.
  replace (Z.to_nat (IndexByte rest c + 1)) with (S (Z.to_nat (IndexByte rest c))) by lia.
  cbn [String.substring IndexByte].
  destruct (Ascii.eqb_spec x c); [contradiction|].
  rewrite (IH Hge). reflexivity.
Qed.

Lemma Split_nonempty (s : string) (sep : ascii) : Split s sep <> [].
Proof.
  destruct s as [|c rest]; simpl; [discriminate|].
  destruct (Ascii.eqb c sep); [discriminate|].
  destruct (Split rest sep); discriminate.
Qed.

(** Joining what [Split] returns gives the string back. *)
Lemma Join_Split (s : string) (sep : ascii) : Join (Split s sep) (String sep "") = s.
Proof.
  induction s as [|c rest IH]; [reflexivity|]. cbn [Split].
  pose proof (Split_nonempty rest sep) as Hne.
  destruct (Ascii.eqb_spec c sep) as [->|Hc].
  - destruct (Split rest sep) as [|w ws]; [contradiction|].
    cbn [Join] in *. change (String sep (Join (w :: ws) (String sep "")) = String sep rest).
    f_equal. exact IH.
  - destruct (Split rest sep) as [|w ws]; [contradiction|].
    cbn [Join] in *. destruct ws as [|w' ws'].
    + f_equal. exact IH.
    + rewrite append_String. f_equal. exact IH.
Qed.

(** No part that [Split] returns holds the separator. *)
Lemma Split_parts (s : string) (sep : ascii) :
  Forall (fun part => Contains part (String sep "") = false) (Split s sep).
Proof.
  induction s as [|c rest IH]; [repeat constructor|]. cbn [Split].
  destruct (Ascii.eqb_spec c sep) as [->|Hc]; [constructor; [reflexivity | exact IH]|].
  destruct (Split rest sep) as [|w ws]; [repeat constructor|].
  - cbn [Contains]. rewrite prefix_one, bool_decide_eq_false_2 by congruence. reflexivity.
  - inversion IH as [|? ? Hw Hws]; subst. constructor; [|exact Hws].
    cbn [Contains]. rewrite prefix_one, bool_decide_eq_false_2 by congruence. exact Hw.
Qed.

Lemma checkSteps_closed (steps : list string) (path : string) (diags : Diagnostics) :
  checkSteps ValidIdentifier steps path diags
  = diags ++ map (fun step => invalidComponentDiag step path)
               (List.filter (fun step => negb (ValidIdentifier step)) steps).
Proof.
  revert diags. induction steps as [|st l IH]; intros diags; simpl.
  - by rewrite app_nil_r.
  - destruct (ValidIdentifier st); simpl; [apply IH|].
    rewrite IH, <- app_assoc. reflexivity.
Qed.

Lemma HasErrors_components (bad : list string) (path : string) :
  HasErrors (map (fun step => invalidComponentDiag step path) bad)
  = match bad with [] => false | _ :: _ => true end.
Proof. destruct bad; reflexivity. Qed.

(** [ParseCLIArgument] once the equals sign is found past the first byte. *)
Lemma ParseCLIArgument_closed (raw : string) :
  (1 <= IndexByte raw "=")%Z ->
  let path := sliceTo raw (IndexByte raw "=") in
  ParseCLIArgument ValidIdentifier raw
  = match invalidSteps ValidIdentifier path with
    | [] => (Some {| fullPath := path;
                     steps := Split path ".";
                     val := sliceFrom raw (IndexByte raw "=" + 1) |}, [])
    | _ :: _ => (None, map (fun step => invalidComponentDiag step path)
                         (invalidSteps ValidIdentifier path))
    end.
Proof.
  intros Heq path. unfold ParseCLIArgument.
  destruct (Z.ltb_spec (IndexByte raw "=") 1); [lia|].
  fold path. rewrite checkSteps_closed, app_nil_l, HasErrors_components.
  unfold invalidSteps.
  destruct (List.filter _ (Split path ".")); reflexivity.
Qed.

End ParseFacts.

(** X1.  An argument without an equals sign (the empty argument among them),
    or with the equals sign as its first byte, gives no overlay and exactly
    one diagnostic: an error, "Invalid argument", without subject.  For an
    ASCII argument its text quotes the whole argument. *)
Theorem X1_parse_needs_setting_before_equals
    (ValidIdentifier : string -> bool) (raw : string) :
  Contains raw "=" = false \/ HasPrefix raw "=" = true ->
  exists detail,
    ParseCLIArgument ValidIdentifier raw
    = (None,
       [ {| diag_Severity := DiagError;
            diag_Summary := "Invalid argument";
            diag_Detail := detail;
            diag_Subject := None |} ])
    /\ (isASCII raw = true ->
        detail
        = ("Invalid argument " ++ Quote raw
           ++ ": must be a configuration setting, followed by an equals sign, and then a value for that setting.")%string).
Proof.
  intros Hraw. unfold ParseCLIArgument.
  assert (Hlt : (IndexByte raw "=" < 1)%Z).
  { destruct Hraw as [Hno|Hpre].
    - apply IndexByte_Contains in Hno. lia.
    - apply IndexByte_HasPrefix in Hpre. lia. }
  destruct (Z.ltb_spec (IndexByte raw "=") 1); [|lia].
  eexists. split; [reflexivity|]. intros _. reflexivity.
Qed.

Lemma X1_witness_no_equals :
  (Contains "io_mode" "=" = false \/ HasPrefix "io_mode" "=" = true)
  /\ fst (ParseCLIArgument asciiIdentifier "io_mode") = None
  /\ length (snd (ParseCLIArgument asciiIdentifier "io_mode")) = 1.
Proof.
  split; [left; reflexivity|].
  destruct (X1_parse_needs_setting_before_equals asciiIdentifier "io_mode"
              (or_introl eq_refl)) as (detail & -> & _).
  split; reflexivity.
Defined.

(** X2.  An overlay that [ParseCLIArgument] returns comes without
    diagnostics and holds the argument: the argument is the full path, an
    equals sign, and the value; the full path is not empty and has no equals
    sign (the argument is cut at its first one); the steps are the full path
    split at the dots, so there is at least one step, no step has a dot, the
    steps joined by dots are the full path again, and every step passed the
    identifier test. *)
Theorem X2_parsed_overlay_holds_the_argument
    (ValidIdentifier : string -> bool) (raw : string)
    (ov : cliArgOverlay) (diags : Diagnostics) :
  ParseCLIArgument ValidIdentifier raw = (Some ov, diags) ->
  diags = []
  /\ raw = (fullPath ov ++ String "="%char (val ov))%string
  /\ fullPath ov <> ""
  /\ Contains (fullPath ov) "=" = false
  /\ steps ov = Split (fullPath ov) "."
  /\ steps ov <> []
  /\ Join (steps ov) "." = fullPath ov
  /\ Forall (fun step => ValidIdentifier step = true) (steps ov)
  /\ Forall (fun step => Contains step "." = false) (steps ov).
Proof.
  intros Hparse.
  destruct (Z.ltb_spec (IndexByte raw "=") 1) as [Hlt|Hge].
  { unfold ParseCLIArgument in Hparse.
    destruct (Z.ltb_spec (IndexByte raw "=") 1); [discriminate | lia]. }
  rewrite (ParseCLIArgument_closed ValidIdentifier raw Hge) in Hparse.
  cbv zeta in Hparse.
  destruct (invalidSteps ValidIdentifier (sliceTo raw (IndexByte raw "="))) eqn:Hbad;
    [|discriminate].
  injection Hparse as <- <-. cbn [fullPath steps val].
  split; [reflexivity|].
  split; [apply IndexByte_split; lia|].
  split.
  { destruct raw as [|x rest]; [simpl in Hge; lia|].
    unfold sliceTo.
    replace (Z.to_nat (IndexByte (String x rest) "="))
      with (S (Z.to_nat (IndexByte (String x rest) "=" - 1))) by lia.
    discriminate. }
  split; [apply IndexByte_Contains, IndexByte_sliceTo; lia|].
  split; [reflexivity|].
  split; [apply Split_nonempty|].
  split; [apply Join_Split|].
  split; [|apply Split_parts].
  apply Forall_forall. intros st Hst.
  destruct (ValidIdentifier st) eqn:Hv; [reflexivity|].
  assert (Hin : In st (invalidSteps ValidIdentifier (sliceTo raw (IndexByte raw "=")))).
  { unfold invalidSteps. apply filter_In. split; [by apply list_elem_of_In|].
    rewrite Hv. reflexivity. }
  rewrite Hbad in Hin. destruct Hin.
Qed.

Lemma X2_witness_listen_addr :
  ParseCLIArgument asciiIdentifier "service.http.web_proxy.listen_addr=127.0.0.1:2000"
  = (Some listenOverlay, [])
  /\ Join (steps listenOverlay) "." = fullPath listenOverlay
  /\ steps listenOverlay <> [].
Proof.
  assert (Hp : ParseCLIArgument asciiIdentifier
                 "service.http.web_proxy.listen_addr=127.0.0.1:2000"
               = (Some listenOverlay, [])) by (vm_compute; reflexivity).
  split; [exact Hp|].
  destruct (X2_parsed_overlay_holds_the_argument asciiIdentifier _ _ _ Hp)
    as (_ & _ & _ & _ & _ & Hne & Hjoin & _).
  split; [exact Hjoin | exact Hne].
Defined.

Section BuildFacts.

Lemma IndexByte_append (p v : string) (c : ascii) :
  IndexByte p c = (-1)%Z ->
  IndexByte (p ++ String c v) c = Z.of_nat (String.length p).
Proof.
  induction p as [|x p IH]; intros Hno.
  - change (("" ++ String c v)%string) with (String c v). simpl.
    rewrite Ascii.eqb_refl. reflexivity.
  - rewrite append_String. cbn [IndexByte String.length] in *.
    destruct (Ascii.eqb x c); [discriminate|].
    destruct (IndexByte_range p c) as [Hp|Hp].
    + rewrite (IH Hp). destruct (Z.ltb_spec (Z.of_nat (String.length p)) 0); lia.
    + destruct (Z.ltb_spec (IndexByte p c) 0); lia.
Qed.

Lemma substring_append_l (p q : string) :
  String.substring 0 (String.length p) (p ++ q) = p.
Proof.
  induction p as [|x p IH].
  - change (("" ++ q)%string) with q. destruct q; reflexivity.
  - rewrite append_String. cbn [String.length String.substring]. f_equal. exact IH.
Qed.

Lemma substring_append_r (p v : string) (c : ascii) :
  String.substring (S (String.length p))
    (String.length (p ++ String c v) - S (String.length p)) (p ++ String c v) = v.
Proof.
  induction p as [|x p IH].
  - change (("" ++ String c v)%string) with (String c v).
    cbn [String.length String.substring].
    replace (S (String.length v) - 1) with (String.length v) by lia.
    apply substring_all.
  - rewrite append_String. cbn [String.length String.substring].
    replace (S (String.length (p ++ String c v)) - S (S (String.length p)))
      with (String.length (p ++ String c v) - S (String.length p)) by lia.
    exact IH.
Qed.

End BuildFacts.

(** X3.  Every path and value can be written as an argument that parses
    back to them: when the path is not empty, has no equals sign, and all its
    dot-separated parts pass the identifier test, the argument [path=value]
    gives the overlay of that full path, those parts as steps and that value,
    whatever bytes the value holds (equals signs and dots among them), and no
    diagnostics. *)
Theorem X3_argument_of_path_and_value_parses_back
    (ValidIdentifier : string -> bool) (path value : string) :
  0 < String.length path ->
  Contains path "=" = false ->
  forallb ValidIdentifier (Split path ".") = true ->
  ParseCLIArgument ValidIdentifier (path ++ String "="%char value)
  = (Some {| fullPath := path; steps := Split path "."; val := value |}, []).
Proof.
  intros Hlen Hno Hvalid.
  apply IndexByte_Contains in Hno.
  pose proof (IndexByte_append path value "=" Hno) as Hidx.
  rewrite ParseCLIArgument_closed by (rewrite Hidx; lia).
  cbv zeta. rewrite Hidx. unfold sliceTo, sliceFrom.
  replace (Z.to_nat (Z.of_nat (String.length path))) with (String.length path) by lia.
  replace (Z.to_nat (Z.of_nat (String.length path) + 1)) with (S (String.length path)) by lia.
  rewrite substring_append_l, substring_append_r.
  unfold invalidSteps.
  replace (List.filter (fun step => negb (ValidIdentifier step)) (Split path "."))
    with (@nil string); [reflexivity|].
  symmetry. rewrite forallb_forall in Hvalid.
  induction (Split path ".") as [|st l IH]; [reflexivity|].
  simpl. rewrite (Hvalid st) by (by left). simpl.
  apply IH. intros x Hx. apply Hvalid. by right.
Qed.

Lemma X3_witness_value_with_equals :
  0 < String.length "block.b.foo"
  /\ Contains "block.b.foo" "=" = false
  /\ forallb asciiIdentifier (Split "block.b.foo" ".") = true
  /\ ParseCLIArgument asciiIdentifier "block.b.foo=x=y.z"
     = (Some {| fullPath := "block.b.foo"; steps := ["block"; "b"; "foo"]; val := "x=y.z" |},
        []).
Proof.
  split; [vm_compute; lia|]. split; [reflexivity|]. split; [reflexivity|].
  exact (X3_argument_of_path_and_value_parses_back asciiIdentifier "block.b.foo" "x=y.z"
           ltac:(vm_compute; lia) eq_refl eq_refl).
Defined.

(** X4.  When the equals sign is found past the first byte, every step that
    fails the identifier test is reported, in the order of the path, by one
    diagnostic: an error, "Invalid argument", without subject; there are no
    other diagnostics.  For an ASCII path the text of each quotes the step and
    the path.  The overlay is returned exactly when no step fails. *)
Theorem X4_parse_reports_every_invalid_step
    (ValidIdentifier : string -> bool) (raw : string) :
  (1 <= IndexByte raw "=")%Z ->
  let path := sliceTo raw (IndexByte raw "=") in
  let bad := List.filter (fun step => negb (ValidIdentifier step)) (Split path ".") in
  exists details : list string,
    snd (ParseCLIArgument ValidIdentifier raw)
    = map (fun detail =>
             {| diag_Severity := DiagError;
                diag_Summary := "Invalid argument";
                diag_Detail := detail;
                diag_Subject := None |}) details
    /\ length details = length bad
    /\ (isASCII path = true ->
        details
        = map (fun step =>
                 ("Invalid component " ++ Quote step ++ " in argument " ++ Quote path
                  ++ ": dot-separated parts must be a letter followed by zero or more letters, digits, or underscores.")%string)
            bad)
    /\ (is_Some (fst (ParseCLIArgument ValidIdentifier raw)) <-> bad = []).
Proof.
  intros Heq path bad.
  rewrite (ParseCLIArgument_closed ValidIdentifier raw Heq). cbv zeta.
  fold path. unfold invalidSteps. fold bad.
  exists (map (fun step =>
                 ("Invalid component " ++ Quote step ++ " in argument " ++ Quote path
                  ++ ": dot-separated parts must be a letter followed by zero or more letters, digits, or underscores.")%string)
              bad).
  split; [|split; [apply length_map|split; [reflexivity|]]].
  - destruct bad as [|b l]; [reflexivity|]. cbn [snd].
    rewrite map_map. reflexivity.
  - destruct bad as [|b l]; cbn [fst]; split; eauto; try discriminate.
    intros [? ?]; discriminate.
Qed.

Lemma X4_witness_two_bad_steps :
  (1 <= IndexByte "service.9..listen_addr=1" "=")%Z
  /\ fst (ParseCLIArgument asciiIdentifier "service.9..listen_addr=1") = None
  /\ length (snd (ParseCLIArgument asciiIdentifier "service.9..listen_addr=1")) = 2.
Proof.
  assert (Heq : (1 <= IndexByte "service.9..listen_addr=1" "=")%Z)
    by (vm_compute; discriminate).
  split; [exact Heq|].
  destruct (X4_parse_reports_every_invalid_step asciiIdentifier
              "service.9..listen_addr=1" Heq) as (details & Hd & Hlen & _).
  split; [reflexivity|]. rewrite Hd, length_map, Hlen. reflexivity.
Defined.

(** ** Extracting the options *)

Section ExtractMore.
Variable ValidIdentifier : string -> bool.

(** The loop only appends to its three variables. *)
Lemma extractLoop_acc (args : list string) schema remain overlays diags :
  extractLoop ValidIdentifier args schema remain overlays diags
  = let '(r, o, d) := extractLoop ValidIdentifier args schema [] [] [] in
    (remain ++ r, overlays ++ o, diags ++ d).
Proof.
  revert remain overlays diags.
  induction args as [|arg rest IH]; intros remain overlays diags; cbn [extractLoop].
  - by rewrite !app_nil_r.
  - destruct (bool_decide (arg = "--")); [by rewrite !app_nil_r|].
    destruct (negb (HasPrefix arg "--")).
    { rewrite (IH (remain ++ [arg])), (IH ([] ++ [arg])).
      destruct (extractLoop ValidIdentifier rest schema [] [] []) as [[r o] d].
      by rewrite <- app_assoc. }
    destruct (negb (schemaMentions schema _)); [apply IH|].
    destruct (ParseCLIArgument ValidIdentifier (sliceFrom arg 2)) as [o more].
    rewrite IH, (IH [] (match o with Some ov => [] ++ [ov] | None => [] end) ([] ++ more)).
    destruct (extractLoop ValidIdentifier rest schema [] [] []) as [[r os] d].
    destruct o; by rewrite <- !app_assoc.
Qed.

Lemma extractLoop_app (a b : list string) schema remain overlays diags :
  existsb (fun arg => bool_decide (arg = "--")) a = false ->
  extractLoop ValidIdentifier (a ++ b) schema remain overlays diags
  = let '(r, o, d) := extractLoop ValidIdentifier a schema remain overlays diags in
    extractLoop ValidIdentifier b schema r o d.
Proof.
  revert remain overlays diags.
  induction a as [|arg rest IH]; intros remain overlays diags; [reflexivity|].
  cbn [existsb]. intros [Harg Hrest]%orb_false_elim.
  cbn [app extractLoop]. rewrite Harg.
  destruct (negb (HasPrefix arg "--")); [by apply IH|].
  destruct (negb (schemaMentions schema _)); [by apply IH|].
  destruct (ParseCLIArgument ValidIdentifier (sliceFrom arg 2)) as [o more].
  by apply IH.
Qed.

Lemma extractLoop_terminator (a b : list string) schema remain overlays diags :
  let '(_, o1, d1) :=
    extractLoop ValidIdentifier (a ++ "--" :: b) schema remain overlays diags in
  let '(_, o2, d2) := extractLoop ValidIdentifier a schema remain overlays diags in
  o1 = o2 /\ d1 = d2.
Proof.
  revert remain overlays diags.
  induction a as [|arg rest IH]; intros remain overlays diags; cbn [app extractLoop].
  - rewrite bool_decide_eq_true_2 by reflexivity. auto.
  - destruct (bool_decide (arg = "--")); [auto|].
    destruct (negb (HasPrefix arg "--")); [apply IH|].
    destruct (negb (schemaMentions schema _)); [apply IH|].
    destruct (ParseCLIArgument ValidIdentifier (sliceFrom arg 2)) as [o more].
    apply IH.
Qed.

Lemma IndexAny_found (s : string) (c : ascii) (chars : list ascii) :
  In c chars -> (0 <= IndexByte s c)%Z -> (0 <= IndexAny s chars)%Z.
Proof.
  intros Hin. induction s as [|x rest IH]; cbn [IndexByte IndexAny]; [lia|].
  destruct (Ascii.eqb_spec x c) as [->|Hne].
  - intros _.
    replace (existsb (Ascii.eqb c) chars) with true; [lia|].
    symmetry. apply existsb_exists. exists c. split; [assumption | apply Ascii.eqb_refl].
  - destruct (Z.ltb_spec (IndexByte rest c) 0); [lia|]. intros _.
    destruct (existsb (Ascii.eqb x) chars); [lia|].
    destruct (Z.ltb_spec (IndexAny rest chars) 0); lia.
Qed.

(** The first step of the path is the name looked up in the schema. *)
Lemma head_Split_path (raw : string) :
  (0 <= IndexByte raw "=")%Z ->
  head (Split (sliceTo raw (IndexByte raw "=")) ".")
  = Some (if negb (IndexAny raw ["."%char; "="%char] =? -1)%Z
          then sliceTo raw (IndexAny raw ["."%char; "="%char]) else raw).
Proof.
  unfold sliceTo.
  induction raw as [|x rest IH]; cbn [IndexByte IndexAny]; [lia|].
  destruct (Ascii.eqb_spec x "=") as [->|Hne].
  - intros _. reflexivity.
  - destruct (Z.ltb_spec (IndexByte rest "=") 0) as [|Hge]; [lia|]. intros _.
    replace (Z.to_nat (IndexByte rest "=" + 1))
      with (S (Z.to_nat (IndexByte rest "="))) by lia.
    cbn [String.substring Split existsb].
    destruct (Ascii.eqb_spec x ".") as [->|Hdot]; [reflexivity|].
    replace (Ascii.eqb x "=") with false
      by (symmetry; apply Ascii.eqb_neq; assumption).
    cbn [orb].
    pose proof (IndexAny_found rest "=" ["."%char; "="%char]
                  (or_intror (or_introl eq_refl)) Hge) as Hany.
    specialize (IH Hge).
    destruct (Z.ltb_spec (IndexAny rest ["."%char; "="%char]) 0); [lia|].
    destruct (Z.eqb_spec (IndexAny rest ["."%char; "="%char]) (-1)); [lia|].
    destruct (Z.eqb_spec (IndexAny rest ["."%char; "="%char] + 1) (-1)); [lia|].
    cbn [negb] in *.
    replace (Z.to_nat (IndexAny rest ["."%char; "="%char] + 1))
      with (S (Z.to_nat (IndexAny rest ["."%char; "="%char]))) by lia.
    cbn [String.substring].
    destruct (Split (String.substring 0 (Z.to_nat (IndexByte rest "=")) rest) ".")
      as [|w ws]; [discriminate|].
    injection IH as ->. reflexivity.
Qed.

(** Every overlay the loop returns was there before, or has a first step
    that the schema mentions. *)
Lemma extractLoop_mentioned (args : list string) schema remain overlays diags
    remain' overlays' diags' :
  extractLoop ValidIdentifier args schema remain overlays diags
  = (remain', overlays', diags') ->
  forall ov, ov ∈ overlays' ->
    ov ∈ overlays
    \/ exists name, head (steps ov) = Some name /\ schemaMentions schema name = true.
Proof.
  revert remain overlays diags.
  induction args as [|arg rest IH]; intros remain overlays diags; cbn [extractLoop].
  - intros [= _ <- _] ov Hov. by left.
  - destruct (bool_decide (arg = "--")).
    { intros [= _ <- _] ov Hov. by left. }
    destruct (negb (HasPrefix arg "--")); [apply IH|].
    destruct (schemaMentions schema _) eqn:Hm; cbn [negb]; [|apply IH].
    destruct (ParseCLIArgument ValidIdentifier (sliceFrom arg 2)) as [[o|] more] eqn:Hparse;
      [|apply IH].
    intros Hloop ov Hov. destruct (IH _ _ _ Hloop ov Hov) as [Hin|Hin]; [|by right].
    apply elem_of_app in Hin as [Hin|Hin]; [by left|].
    apply list_elem_of_singleton in Hin as ->. right.
    destruct (Z.ltb_spec (IndexByte (sliceFrom arg 2) "=") 1) as [Hlt|Hge].
    { unfold ParseCLIArgument in Hparse.
      destruct (Z.ltb_spec (IndexByte (sliceFrom arg 2) "=") 1); [discriminate | lia]. }
    rewrite (ParseCLIArgument_closed ValidIdentifier _ Hge) in Hparse. cbv zeta in Hparse.
    destruct (invalidSteps ValidIdentifier _); [|discriminate].
    injection Hparse as <- _. cbn [steps].
    eexists. split; [apply head_Split_path; lia | exact Hm].
Qed.

End ExtractMore.

(** X5.  The token [--] ends the scan: whatever follows it, options of the
    schema included, adds no overlay and no diagnostic. *)
Theorem X5_nothing_is_extracted_after_the_terminator
    (ValidIdentifier : string -> bool) (before after : list string) (schema : BodySchema) :
  fst (fst (ExtractCLIOptions ValidIdentifier (before ++ "--" :: after) schema))
  = fst (fst (ExtractCLIOptions ValidIdentifier before schema))
  /\ snd (ExtractCLIOptions ValidIdentifier (before ++ "--" :: after) schema)
     = snd (ExtractCLIOptions ValidIdentifier before schema).
Proof.
  unfold ExtractCLIOptions.
  pose proof (extractLoop_terminator ValidIdentifier before after schema [] [] []) as Ht.
  destruct (extractLoop ValidIdentifier (before ++ "--" :: after) schema [] [] [])
    as [[r1 o1] d1].
  destruct (extractLoop ValidIdentifier before schema [] [] []) as [[r2 o2] d2].
  exact Ht.
Qed.

(** X6.  Up to the terminator the scan goes token by token: for a sequence
    without [--] followed by any other sequence, the overlays are those of
    the first followed by those of the second, and so are the diagnostics. *)
Theorem X6_extraction_of_a_concatenation
    (ValidIdentifier : string -> bool) (a b : list string) (schema : BodySchema) :
  existsb (fun arg => bool_decide (arg = "--")) a = false ->
  fst (fst (ExtractCLIOptions ValidIdentifier (a ++ b) schema))
  = fst (fst (ExtractCLIOptions ValidIdentifier a schema))
    ++ fst (fst (ExtractCLIOptions ValidIdentifier b schema))
  /\ snd (ExtractCLIOptions ValidIdentifier (a ++ b) schema)
     = snd (ExtractCLIOptions ValidIdentifier a schema)
       ++ snd (ExtractCLIOptions ValidIdentifier b schema).
Proof.
  intros Ha. unfold ExtractCLIOptions.
  rewrite (extractLoop_app ValidIdentifier a b schema [] [] [] Ha).
  destruct (extractLoop ValidIdentifier a schema [] [] []) as [[r1 o1] d1].
  rewrite extractLoop_acc.
  destruct (extractLoop ValidIdentifier b schema [] [] []) as [[r2 o2] d2].
  split; reflexivity.
Qed.

Lemma X6_witness_two_options :
  existsb (fun arg => bool_decide (arg = "--")) ["--io_mode=blocking"; "config.hcl"] = false
  /\ fst (fst (ExtractCLIOptions asciiIdentifier
                 (["--io_mode=blocking"; "config.hcl"]
                  ++ ["--service.gopher.proxy.listen_addr=127.0.0.1:2000"]) rootSchema))
     = [ioModeOverlay; gopherOverlay].
Proof.
  split; [reflexivity|].
  destruct (X6_extraction_of_a_concatenation asciiIdentifier
              ["--io_mode=blocking"; "config.hcl"]
              ["--service.gopher.proxy.listen_addr=127.0.0.1:2000"] rootSchema eq_refl)
    as [Ho _].
  rewrite Ho. reflexivity.
Defined.

(** X7.  Tokens that are not options, and options whose name the schema
    mentions neither as an attribute nor as a block type, are passed over:
    a sequence of such tokens (the empty sequence among them) gives no
    overlay and no diagnostic. *)
Theorem X7_foreign_tokens_are_passed_over
    (ValidIdentifier : string -> bool) (args : list string) (schema : BodySchema) :
  forallb (foreignToken schema) args = true ->
  ExtractCLIOptions ValidIdentifier args schema = ([], args, []).
Proof.
  intros Hall. unfold ExtractCLIOptions.
  assert (Hloop : forall remain, exists remain',
            extractLoop ValidIdentifier args schema remain [] [] = (remain', [], [])).
  { induction args as [|arg rest IH]; intros remain; cbn [extractLoop]; [eauto|].
    cbn [forallb] in Hall. apply andb_prop in Hall as [Harg Hrest].
    destruct (bool_decide (arg = "--")); [eauto|].
    unfold foreignToken, optionName in Harg. cbv zeta in Harg.
    destruct (negb (HasPrefix arg "--")); [apply IH, Hrest|].
    cbn [orb] in Harg. rewrite Harg. apply IH, Hrest. }
  destruct (Hloop []) as [remain' ->]. reflexivity.
Qed.

Lemma X7_witness_json_flag :
  forallb (foreignToken rootSchema) ["config.hcl"; "--json"; "-j"] = true
  /\ ExtractCLIOptions asciiIdentifier ["config.hcl"; "--json"; "-j"] rootSchema
     = ([], ["config.hcl"; "--json"; "-j"], []).
Proof.
  split; [reflexivity|].
  exact (X7_foreign_tokens_are_passed_over asciiIdentifier
           ["config.hcl"; "--json"; "-j"] rootSchema eq_refl).
Defined.

(** ** One overlay on one content *)

Section VerdictFacts.
Context {B : Type} `{HclBody B}.

Lemma findBlockS_declared schema name blockS :
  findBlockS schema name = Some blockS -> blockDeclared schema name = true.
Proof.
  intros Hb. destruct (blockDeclared schema name) eqn:E; [reflexivity|].
  apply findBlockS_undeclared in E. congruence.
Qed.

(** [PartialApplyOverlay] by the verdict of the schema on the overlay. *)
Lemma PartialApplyOverlay_verdict (o : cliArgOverlay) (content : BodyContent B) schema :
  PartialApplyOverlay o content schema
  = match verdict schema o with
    | Panics => None
    | SetsAttribute name =>
        Some (setAttribute content name (overlayAttribute o name), None, [])
    | Rejected => Some (content, None, [invalidArgError o])
    | EntersBlock blockS =>
        let k := length (blockS_LabelNames blockS) in
        match overrideFirstBlock (content_Blocks content) (blockS_Type blockS)
                (candidateLabels o k) (remainderOverlay o k) with
        | Some blocks => Some (setBlocks content blocks, None, [])
        | None =>
            Some (setBlocks content
                    (content_Blocks content
                     ++ [newBlock blockS (candidateLabels o k) (remainderOverlay o k)]),
                  None, [])
        end
    | Deferred => Some (content, Some o, [])
    end.
Proof.
  unfold verdict.
  destruct (steps o) as [|name rest] eqn:Hs.
  { unfold PartialApplyOverlay. rewrite Hs. reflexivity. }
  assert (Hhd : head (steps o) = Some name) by (rewrite Hs; reflexivity).
  destruct (attrDeclared schema name) eqn:Hda.
  - destruct rest as [|step rest].
    + apply PartialApplyOverlay_attribute; assumption.
    + apply PartialApplyOverlay_attribute_prefix with (name := name); try assumption.
      rewrite Hs. discriminate.
  - apply findAttrS_undeclared in Hda as Hfa.
    destruct (findBlockS schema name) as [blockS|] eqn:Hfb.
    + assert (Hm : matchesBlockSpec schema name blockS) by (split; assumption).
      rewrite <- Hs.
      destruct (Nat.ltb_spec (length (steps o)) (2 + length (blockS_LabelNames blockS))).
      * apply PartialApplyOverlay_block_short with (name := name) (blockS := blockS);
          assumption.
      * apply (PartialApplyOverlay_block o content schema name blockS); assumption.
    + apply findBlockS_undeclared in Hfb.
      apply PartialApplyOverlay_unmatched with (name := name); assumption.
Qed.

Lemma verdict_schemaNoRequired schema o :
  verdict (schemaNoRequired schema) o = verdict schema o.
Proof.
  unfold verdict. destruct (steps o) as [|name rest]; [reflexivity|].
  rewrite attrDeclared_schemaNoRequired. reflexivity.
Qed.

Lemma verdict_mentioned schema o name :
  head (steps o) = Some name ->
  schemaMentions schema name = true ->
  verdict schema o <> Panics /\ verdict schema o <> Deferred.
Proof.
  unfold verdict, schemaMentions.
  destruct (steps o) as [|x rest]; [discriminate|]. intros [= ->] Hm.
  destruct (attrDeclared schema name); [destruct rest; split; discriminate|].
  cbn [orb] in Hm. apply not_false_iff_true in Hm.
  rewrite findBlockS_undeclared in Hm.
  destruct (findBlockS schema name); [|contradiction].
  destruct (_ <? _)%nat; split; discriminate.
Qed.

Lemma verdict_no_leftover (o : cliArgOverlay) (content : BodyContent B) schema :
  verdict schema o <> Panics ->
  verdict schema o <> Deferred ->
  exists content' diags, PartialApplyOverlay o content schema = Some (content', None, diags).
Proof.
  intros Hp Hd. rewrite PartialApplyOverlay_verdict.
  destruct (verdict schema o); try contradiction; cbv zeta; eauto.
  destruct (overrideFirstBlock _ _ _ _); eauto.
Qed.

End VerdictFacts.

(** X8.  Every overlay that [ExtractCLIOptions] returns for a schema has a
    first step that this schema mentions; so, applied to any content under
    this schema, or under the relaxed schema the view decodes with, it
    returns (it has a step) and leaves no leftover. *)
Theorem X8_extracted_overlays_match_the_schema {B} `{HclBody B}
    (ValidIdentifier : string -> bool) (args : list string) (schema : BodySchema)
    (overlays : list cliArgOverlay) (remain : list string) (diags : Diagnostics) :
  ExtractCLIOptions ValidIdentifier args schema = (overlays, remain, diags) ->
  Forall (fun ov =>
            (exists name, head (steps ov) = Some name
                          /\ schemaMentions schema name = true)
            /\ forall content : BodyContent B,
                 (exists content' d,
                     PartialApplyOverlay ov content schema = Some (content', None, d))
                 /\ (exists content' d,
                       PartialApplyOverlay ov content (schemaNoRequired schema)
                       = Some (content', None, d)))
         overlays.
Proof.
  unfold ExtractCLIOptions.
  destruct (extractLoop ValidIdentifier args schema [] [] []) as [[r os] d] eqn:Hloop.
  intros [= <- _ _]. apply Forall_forall. intros ov Hov.
  destruct (extractLoop_mentioned _ _ _ _ _ _ _ _ _ Hloop ov Hov) as [Hin|(name & Hhd & Hm)].
  { by apply elem_of_nil in Hin. }
  split; [eauto|]. intros content.
  destruct (verdict_mentioned schema ov name Hhd Hm) as [Hp Hd].
  split; apply verdict_no_leftover; rewrite ?verdict_schemaNoRequired; assumption.
Qed.

Lemma X8_witness_command_line :
  ExtractCLIOptions asciiIdentifier
    ["--io_mode=blocking"; "--json"; "--service.http=x"; "config.hcl"] rootSchema
  = ([ioModeOverlay; {| fullPath := "service.http"; steps := ["service"; "http"]; val := "x" |}],
     ["--io_mode=blocking"; "--json"; "--service.http=x"; "config.hcl"], [])
  /\ exists content' d,
       PartialApplyOverlay
         {| fullPath := "service.http"; steps := ["service"; "http"]; val := "x" |}
         configContent rootSchema = Some (content', None, d).
Proof.
  assert (He : ExtractCLIOptions asciiIdentifier
                 ["--io_mode=blocking"; "--json"; "--service.http=x"; "config.hcl"] rootSchema
               = ([ioModeOverlay;
                   {| fullPath := "service.http"; steps := ["service"; "http"]; val := "x" |}],
                  ["--io_mode=blocking"; "--json"; "--service.http=x"; "config.hcl"], []))
    by reflexivity.
  split; [exact He|].
  pose proof (X8_extracted_overlays_match_the_schema (B := Doc) _ _ _ _ _ _ He) as Hall.
  apply Forall_cons_1 in Hall as [_ Hall]. apply Forall_cons_1 in Hall as [[_ Hov] _].
  exact (proj1 (Hov configContent)).
Defined.

(** X9.  An overlay that reports an error changes nothing: [ApplyOverlay]
    returns either without diagnostics, or with exactly one, "Unexpected
    argument" with the full path, and then with the content it was given.  It
    panics only on an overlay without steps.  The diagnostics do not depend
    on the content: the schema and the steps decide them. *)
Theorem X9_error_leaves_content_unchanged {B} `{HclBody B}
    (o : cliArgOverlay) (content : BodyContent B) (schema : BodySchema) :
  match ApplyOverlay o content schema with
  | Some (content', diags) =>
      steps o <> []
      /\ (diags = [] \/ (diags = [invalidArgError o] /\ content' = content))
  | None => steps o = []
  end
  /\ forall other : BodyContent B,
       (snd <$> ApplyOverlay o other schema) = (snd <$> ApplyOverlay o content schema).
Proof.
  unfold ApplyOverlay. rewrite PartialApplyOverlay_verdict. split.
  - unfold verdict. destruct (steps o) as [|name rest]; [reflexivity|].
    destruct (attrDeclared schema name).
    + destruct rest; (split; [discriminate|]); auto.
    + destruct (findBlockS schema name); [|split; [discriminate | auto]].
      destruct (_ <? _)%nat; [split; [discriminate | auto]|].
      cbv zeta. destruct (overrideFirstBlock _ _ _ _); (split; [discriminate | auto]).
  - intros other. rewrite PartialApplyOverlay_verdict.
    destruct (verdict schema o); try reflexivity.
    cbv zeta. do 2 destruct (overrideFirstBlock _ _ _ _); reflexivity.
Qed.

(** X10.  A path that goes on after the name of an attribute is an error:
    when the first step is an attribute of the schema and more steps follow,
    the content is returned as it was, with the error "Unexpected argument"
    and no leftover, also when the schema has a block type of that name. *)
Theorem X10_attribute_used_as_prefix {B} `{HclBody B}
    (o : cliArgOverlay) (name : string) (content : BodyContent B) (schema : BodySchema) :
  head (steps o) = Some name ->
  attrDeclared schema name = true ->
  1 < length (steps o) ->
  PartialApplyOverlay o content schema = Some (content, None, [invalidArgError o])
  /\ ApplyOverlay o content schema = Some (content, [invalidArgError o]).
Proof.
  intros Hhd Hd Hlen.
  assert (Hp : PartialApplyOverlay o content schema
               = Some (content, None, [invalidArgError o])).
  { apply PartialApplyOverlay_attribute_prefix with (name := name); [assumption..|lia]. }
  split; [exact Hp|]. unfold ApplyOverlay. rewrite Hp. reflexivity.
Qed.

Lemma X10_witness_io_mode_child :
  let o := {| fullPath := "io_mode.level"; steps := ["io_mode"; "level"]; val := "1" |} in
  head (steps o) = Some "io_mode"
  /\ attrDeclared rootSchema "io_mode" = true
  /\ 1 < length (steps o)
  /\ ApplyOverlay o configContent rootSchema = Some (configContent, [invalidArgError o]).
Proof.
  cbv zeta. split; [reflexivity|]. split; [reflexivity|]. split; [vm_compute; lia|].
  exact (proj2 (X10_attribute_used_as_prefix
                  {| fullPath := "io_mode.level"; steps := ["io_mode"; "level"]; val := "1" |}
                  "io_mode" configContent rootSchema eq_refl eq_refl
                  ltac:(vm_compute; lia))).
Defined.

(** X11.  A path into a block type must name every label and one step more:
    when the first step is resolved to a block spec of [k] label names and the
    overlay has fewer than [2 + k] steps, the content is returned as it was,
    with the error "Unexpected argument" and no leftover; no block is looked
    for and none is created. *)
Theorem X11_block_path_too_short {B} `{HclBody B}
    (o : cliArgOverlay) (name : string) (blockS : BlockHeaderSchema)
    (content : BodyContent B) (schema : BodySchema) :
  head (steps o) = Some name ->
  matchesBlockSpec schema name blockS ->
  length (steps o) < 2 + length (blockS_LabelNames blockS) ->
  PartialApplyOverlay o content schema = Some (content, None, [invalidArgError o])
  /\ ApplyOverlay o content schema = Some (content, [invalidArgError o]).
Proof.
  intros Hhd Hm Hlen.
  pose proof (PartialApplyOverlay_block_short o content schema name blockS Hhd Hm Hlen) as Hp.
  split; [exact Hp|]. unfold ApplyOverlay. rewrite Hp. reflexivity.
Qed.

Lemma X11_witness_block_type_alone :
  let o := {| fullPath := "service"; steps := ["service"]; val := "x" |} in
  head (steps o) = Some "service"
  /\ matchesBlockSpec rootSchema "service" (mkBlockHeaderSchema "service" ["type"; "name"])
  /\ length (steps o) < 2 + 2
  /\ PartialApplyOverlay o configContent rootSchema
     = Some (configContent, None, [invalidArgError o]).
Proof.
  cbv zeta. split; [reflexivity|]. split; [split; reflexivity|].
  split; [vm_compute; lia|].
  exact (proj1 (X11_block_path_too_short
                  {| fullPath := "service"; steps := ["service"]; val := "x" |}
                  "service" (mkBlockHeaderSchema "service" ["type"; "name"])
                  configContent rootSchema eq_refl (conj eq_refl eq_refl)
                  ltac:(vm_compute; lia))).
Defined.

(** ** What a sequence of overlays keeps and sets *)

Section KeepFacts.
Context {B : Type} `{HclBody B}.

Lemma sameHeader_refl (b : Block B) : sameHeader b b.
Proof. repeat split. Qed.

Lemma sameHeader_trans (b1 b2 b3 : Block B) :
  sameHeader b1 b2 -> sameHeader b2 b3 -> sameHeader b1 b3.
Proof.
  intros (? & ? & ? & ? & ?) (? & ? & ? & ? & ?). repeat split; congruence.
Qed.

Lemma Forall2_sameHeader_refl (l : list (Block B)) : Forall2 sameHeader l l.
Proof. apply Forall_Forall2_diag, Forall_forall. intros b _. apply sameHeader_refl. Qed.

Lemma Forall2_sameHeader_trans (l1 l2 l3 : list (Block B)) :
  Forall2 sameHeader l1 l2 -> Forall2 sameHeader l2 l3 -> Forall2 sameHeader l1 l3.
Proof.
  intros H12. revert l3. induction H12 as [|b1 b2 l1 l2 Hb _ IH]; intros l3 H23.
  - inversion H23. constructor.
  - inversion H23 as [|? b3 ? l3' Hb' Hl]; subst.
    constructor; [eapply sameHeader_trans; eassumption | apply IH, Hl].
Qed.

(** The loop over the blocks changes no header. *)
Lemma overrideFirstBlock_headers (blocks blocks' : list (Block B)) type want sub :
  overrideFirstBlock blocks type want sub = Some blocks' ->
  Forall2 sameHeader blocks blocks'.
Proof.
  revert blocks'. induction blocks as [|blk l IH]; intros blocks'; [discriminate|].
  rewrite overrideFirstBlock_step.
  destruct (hasHeader type want blk).
  - intros [= <-]. constructor; [repeat split | apply Forall2_sameHeader_refl].
  - destruct (overrideFirstBlock l type want sub) as [l'|]; [|discriminate].
    intros [= <-]. constructor; [apply sameHeader_refl | by apply IH].
Qed.

(** What one overlay does to the blocks: the headers stay, in their order,
    and at most one block is added after them. *)
Lemma ApplyOverlay_blocks (o : cliArgOverlay) (content content' : BodyContent B) schema diags :
  ApplyOverlay o content schema = Some (content', diags) ->
  content_MissingItemRange content' = content_MissingItemRange content
  /\ exists kept added,
       content_Blocks content' = kept ++ added
       /\ Forall2 sameHeader (content_Blocks content) kept
       /\ length added <= 1.
Proof.
  unfold ApplyOverlay. rewrite PartialApplyOverlay_verdict.
  destruct (verdict schema o) as [|name| |blockS|]; try discriminate.
  - intros [= <- _]. split; [reflexivity|].
    exists (content_Blocks content), []. rewrite app_nil_r.
    split; [reflexivity|]. split; [apply Forall2_sameHeader_refl | auto].
  - intros [= <- _]. split; [reflexivity|].
    exists (content_Blocks content), []. rewrite app_nil_r.
    split; [reflexivity|]. split; [apply Forall2_sameHeader_refl | auto].
  - cbv zeta. destruct (overrideFirstBlock _ _ _ _) as [blocks|] eqn:Hov.
    + intros [= <- _]. split; [reflexivity|].
      exists blocks, []. rewrite app_nil_r.
      split; [reflexivity|].
      split; [eapply overrideFirstBlock_headers; eassumption | auto].
    + intros [= <- _]. split; [reflexivity|].
      eexists (content_Blocks content), [_].
      split; [reflexivity|]. split; [apply Forall2_sameHeader_refl | auto].
  - intros [= <- _]. split; [reflexivity|].
    exists (content_Blocks content), []. rewrite app_nil_r.
    split; [reflexivity|]. split; [apply Forall2_sameHeader_refl | auto].
Qed.

(** What one overlay does to an attribute. *)
Lemma ApplyOverlay_attribute (o : cliArgOverlay) (content content' : BodyContent B)
    schema diags (a : string) :
  ApplyOverlay o content schema = Some (content', diags) ->
  content_Attributes content' !! a
  = if namesOnly a o && attrDeclared schema a
    then Some (overlayAttribute o a)
    else content_Attributes content !! a.
Proof.
  unfold ApplyOverlay. rewrite PartialApplyOverlay_verdict.
  unfold verdict, namesOnly.
  destruct (steps o) as [|name rest] eqn:Hs; [discriminate|].
  destruct (attrDeclared schema name) eqn:Hda.
  - destruct rest as [|step rest].
    + intros [= <- _]. cbn [content_Attributes setAttribute].
      destruct (decide (name = a)) as [->|Hne].
      * rewrite bool_decide_eq_true_2, Hda by reflexivity. apply lookup_insert_eq.
      * rewrite bool_decide_eq_false_2 by congruence. by apply lookup_insert_ne.
    + intros [= <- _]. rewrite bool_decide_eq_false_2 by congruence. reflexivity.
  - assert (Hno : bool_decide (name :: rest = [a]) && attrDeclared schema a = false).
    { destruct (bool_decide_reflect (name :: rest = [a])) as [Heq|]; [|reflexivity].
      injection Heq as -> _. rewrite Hda. reflexivity. }
    rewrite Hno.
    destruct (findBlockS schema name) as [blockS|]; [|intros [= <- _]; reflexivity].
    destruct (_ <? _)%nat; [intros [= <- _]; reflexivity|].
    cbv zeta. destruct (overrideFirstBlock _ _ _ _); intros [= <- _]; reflexivity.
Qed.

Lemma lastSetter_cons (a : string) (o : cliArgOverlay) (l : list cliArgOverlay) :
  lastSetter a (o :: l)
  = match lastSetter a l with
    | Some o' => Some o'
    | None => if namesOnly a o then Some o else None
    end.
Proof.
  unfold lastSetter. cbn [List.filter].
  destruct (namesOnly a o); [|destruct (last _); reflexivity].
  apply last_cons.
Qed.

(** What a sequence of overlays does to the blocks and to an attribute. *)
Lemma applyEach_keeps (overlays : list cliArgOverlay) schema
    (content content' : BodyContent B) diags diags' :
  applyEach overlays schema content diags = Some (content', diags') ->
  content_MissingItemRange content' = content_MissingItemRange content
  /\ (exists kept added,
         content_Blocks content' = kept ++ added
         /\ Forall2 sameHeader (content_Blocks content) kept
         /\ length added <= length overlays)
  /\ forall a,
       content_Attributes content' !! a
       = match lastSetter a overlays with
         | Some o => if attrDeclared schema a then Some (overlayAttribute o a)
                     else content_Attributes content !! a
         | None => content_Attributes content !! a
         end.
Proof.
  revert content diags.
  induction overlays as [|o l IH]; intros content diags; cbn [applyEach].
  - intros [= <- _]. split; [reflexivity|]. split; [|reflexivity].
    exists (content_Blocks content), []. rewrite app_nil_r.
    split; [reflexivity|]. split; [apply Forall2_sameHeader_refl | auto].
  - destruct (ApplyOverlay o content schema) as [[c1 more]|] eqn:H1; [|discriminate].
    intros (Hr & (kept & added & Hb & Hkept & Hlen) & Hattr)%IH.
    destruct (ApplyOverlay_blocks _ _ _ _ _ H1) as (Hr1 & kept1 & added1 & Hb1 & Hkept1 & Hlen1).
    split; [congruence|]. split.
    + rewrite Hb1 in Hkept.
      apply Forall2_app_inv_l in Hkept as (k1 & k2 & Hk1 & Hk2 & ->).
      exists k1, (k2 ++ added). rewrite Hb, <- app_assoc.
      split; [reflexivity|].
      split; [eapply Forall2_sameHeader_trans; eassumption|].
      rewrite length_app. apply Forall2_length in Hk2. cbn [length]. lia.
    + intros a. rewrite Hattr, lastSetter_cons, (ApplyOverlay_attribute _ _ _ _ _ a H1).
      destruct (lastSetter a l), (namesOnly a o), (attrDeclared schema a); reflexivity.
Qed.

End KeepFacts.

(** X12.  Overlays only add and replace: in the content a view decodes,
    every attribute of the inner content is still defined, the blocks of the
    inner content are all there, first and in their order, with their types,
    labels and ranges, followed by the blocks the overlays created, at most
    one for each overlay; the missing item range is that of the inner
    content. *)
Theorem X12_view_keeps_attributes_and_blocks {B} `{HclBody B}
    (inner : Body B) (overlays : list cliArgOverlay) (schema : BodySchema)
    (c0 c : BodyContent B) (d0 d : Diagnostics) :
  Content inner (schemaNoRequired schema) = Some (c0, d0) ->
  Content (applyBody inner overlays) schema = Some (c, d) ->
  (forall a, is_Some (content_Attributes c0 !! a) -> is_Some (content_Attributes c !! a))
  /\ (exists kept added,
         content_Blocks c = kept ++ added
         /\ Forall2 sameHeader (content_Blocks c0) kept
         /\ length added <= length overlays)
  /\ content_MissingItemRange c = content_MissingItemRange c0.
Proof.
  intros Hc0. rewrite Content_applyBody, Hc0.
  destruct (applyEach overlays (schemaNoRequired schema) c0 d0) as [[c1 d1]|] eqn:Hap;
    [|discriminate].
  intros [= <- _].
  destruct (applyEach_keeps _ _ _ _ _ _ Hap) as (Hr & Hblocks & Hattr).
  split; [|split; assumption].
  intros a Ha. rewrite Hattr.
  destruct (lastSetter a overlays); [|exact Ha].
  destruct (attrDeclared (schemaNoRequired schema) a); [eauto | exact Ha].
Qed.

Lemma X12_witness_two_overlays :
  exists c d,
    Content (BaseBody configDoc) (schemaNoRequired rootSchema) = Some (configContent, [])
    /\ Content (applyBody (BaseBody configDoc) [gopherOverlay; listenOverlay]) rootSchema
       = Some (c, d)
    /\ is_Some (content_Attributes c !! "io_mode")
    /\ map block_Labels (content_Blocks c) = [["http"; "web_proxy"]; ["gopher"; "proxy"]].
Proof.
  assert (Hc0 : Content (BaseBody configDoc) (schemaNoRequired rootSchema)
                = Some (configContent, [])) by reflexivity.
  assert (Hc : exists c d,
             Content (applyBody (BaseBody configDoc) [gopherOverlay; listenOverlay]) rootSchema
             = Some (c, d)
             /\ map block_Labels (content_Blocks c)
                = [["http"; "web_proxy"]; ["gopher"; "proxy"]]).
  { eexists _, _. split; [vm_compute; reflexivity | reflexivity]. }
  destruct Hc as (c & d & Hc & Hl). exists c, d.
  split; [exact Hc0|]. split; [exact Hc|]. split; [|exact Hl].
  destruct (X12_view_keeps_attributes_and_blocks _ _ _ _ _ _ _ Hc0 Hc) as (Ha & _).
  apply Ha. vm_compute. eauto.
Defined.

(** X13.  In the content a view decodes, an attribute that the schema
    declares has the literal value of the last overlay of the view whose
    path is that one name, whatever the other overlays are; without such an
    overlay, and for every name the schema does not declare, the attribute is
    as the inner content has it. *)
Theorem X13_attribute_is_set_by_the_last_overlay_naming_it {B} `{HclBody B}
    (inner : Body B) (overlays : list cliArgOverlay) (schema : BodySchema)
    (c0 c : BodyContent B) (d0 d : Diagnostics) (a : string) :
  Content inner (schemaNoRequired schema) = Some (c0, d0) ->
  Content (applyBody inner overlays) schema = Some (c, d) ->
  content_Attributes c !! a
  = match lastSetter a overlays with
    | Some o =>
        if attrDeclared schema a
        then Some {| attr_Name := a;
                     attr_Expr := StaticExpr (StringVal (val o)) zeroRange;
                     attr_Range := zeroRange;
                     attr_NameRange := zeroRange |}
        else content_Attributes c0 !! a
    | None => content_Attributes c0 !! a
    end.
Proof.
  intros Hc0. rewrite Content_applyBody, Hc0.
  destruct (applyEach overlays (schemaNoRequired schema) c0 d0) as [[c1 d1]|] eqn:Hap;
    [|discriminate].
  intros [= <- _].
  destruct (applyEach_keeps _ _ _ _ _ _ Hap) as (_ & _ & Hattr).
  rewrite Hattr, attrDeclared_schemaNoRequired. reflexivity.
Qed.

Lemma X13_witness_three_overlays :
  let o1 := {| fullPath := "io_mode"; steps := ["io_mode"]; val := "first" |} in
  let o2 := {| fullPath := "io_mode"; steps := ["io_mode"]; val := "second" |} in
  exists c d,
    Content (BaseBody configDoc) (schemaNoRequired rootSchema) = Some (configContent, [])
    /\ Content (applyBody (BaseBody configDoc) [o1; o2; gopherOverlay]) rootSchema
       = Some (c, d)
    /\ (attr_Expr <$> content_Attributes c !! "io_mode")
       = Some (StaticExpr (StringVal "second") zeroRange).
Proof.
  cbv zeta.
  assert (Hc0 : Content (BaseBody configDoc) (schemaNoRequired rootSchema)
                = Some (configContent, [])) by reflexivity.
  assert (Hc : exists c d,
             Content (applyBody (BaseBody configDoc)
                        [ {| fullPath := "io_mode"; steps := ["io_mode"]; val := "first" |};
                          {| fullPath := "io_mode"; steps := ["io_mode"]; val := "second" |};
                          gopherOverlay ]) rootSchema = Some (c, d)).
  { eexists _, _. vm_compute. reflexivity. }
  destruct Hc as (c & d & Hc). exists c, d.
  split; [exact Hc0|]. split; [exact Hc|].
  rewrite (X13_attribute_is_set_by_the_last_overlay_naming_it _ _ _ _ _ _ _ "io_mode" Hc0 Hc).
  reflexivity.
Defined.

(** ** The flat decode of a view *)

Section FlatFacts.
Context {B : Type} `{HclBody B}.

Lemma ApplyJustAttributes_attribute (o : cliArgOverlay) (attrs : gmap string Attribute)
    (a : string) :
  fst (ApplyJustAttributes o attrs) !! a
  = if namesOnly a o then Some (overlayAttribute o a) else attrs !! a.
Proof.
  unfold ApplyJustAttributes, namesOnly.
  destruct (steps o) as [|name [|step rest]]; cbn [fst].
  - rewrite bool_decide_eq_false_2 by discriminate. reflexivity.
  - destruct (decide (name = a)) as [->|Hne].
    + rewrite bool_decide_eq_true_2 by reflexivity. apply lookup_insert_eq.
    + rewrite bool_decide_eq_false_2 by congruence. by apply lookup_insert_ne.
  - rewrite bool_decide_eq_false_2 by discriminate. reflexivity.
Qed.

Lemma ApplyJustAttributes_diags (o : cliArgOverlay) (attrs : gmap string Attribute) :
  snd (ApplyJustAttributes o attrs)
  = if negb (Nat.eqb (length (steps o)) 1) then [invalidArgError o] else [].
Proof.
  unfold ApplyJustAttributes. destruct (steps o) as [|name [|step rest]]; reflexivity.
Qed.

Lemma justAttributesEach_closed (overlays : list cliArgOverlay)
    (attrs : gmap string Attribute) (diags : Diagnostics) :
  (forall a,
      fst (justAttributesEach overlays attrs diags) !! a
      = match lastSetter a overlays with
        | Some o => Some (overlayAttribute o a)
        | None => attrs !! a
        end)
  /\ snd (justAttributesEach overlays attrs diags)
     = diags ++ map invalidArgError
                  (List.filter (fun o => negb (Nat.eqb (length (steps o)) 1)) overlays).
Proof.
  revert attrs diags.
  induction overlays as [|o l IH]; intros attrs diags; cbn [justAttributesEach].
  - split; [reflexivity | by rewrite app_nil_r].
  - pose proof (ApplyJustAttributes_attribute o attrs) as Ha.
    pose proof (ApplyJustAttributes_diags o attrs) as Hd.
    destruct (ApplyJustAttributes o attrs) as [attrs1 more]. cbn [fst snd] in Ha, Hd.
    destruct (IH attrs1 (diags ++ more)) as [IHa IHd]. split.
    + intros a. rewrite IHa, lastSetter_cons, Ha.
      destruct (lastSetter a l), (namesOnly a o); reflexivity.
    + rewrite IHd, Hd. cbn [List.filter].
      destruct (negb (Nat.eqb (length (steps o)) 1)); cbn [map].
      * rewrite <- app_assoc. reflexivity.
      * rewrite app_nil_r. reflexivity.
Qed.

Lemma justAttributesEach_app (ovs1 ovs2 : list cliArgOverlay)
    (attrs : gmap string Attribute) (diags : Diagnostics) :
  justAttributesEach (ovs1 ++ ovs2) attrs diags
  = let '(attrs', diags') := justAttributesEach ovs1 attrs diags in
    justAttributesEach ovs2 attrs' diags'.
Proof.
  revert attrs diags. induction ovs1 as [|o l IH]; intros attrs diags; [reflexivity|].
  cbn [app justAttributesEach].
  destruct (ApplyJustAttributes o attrs) as [attrs1 more]. apply IH.
Qed.

Lemma missingRequired_relaxed (b : Body B) (c : BodyContent B) schema :
  missingRequired b c (schemaNoRequired schema) = [].
Proof.
  unfold missingRequired. rewrite schemaNoRequired_attributes.
  induction (schema_Attributes schema) as [|attrS l IH]; [reflexivity | exact IH].
Qed.

End FlatFacts.

(** X14.  The flat decode of a view asks no schema: every overlay of one
    step sets the attribute of that name, the last such overlay deciding its
    literal value, and an attribute no such overlay names is as the inner body
    has it; every overlay whose path has not exactly one step adds the error
    "Unexpected argument", after the diagnostics of the inner body and in the
    order of the overlays.  It never panics. *)
Theorem X14_flat_decode_of_a_view {B} `{HclBody B}
    (inner : Body B) (overlays : list cliArgOverlay) :
  (forall a,
      fst (JustAttributes (applyBody inner overlays)) !! a
      = match lastSetter a overlays with
        | Some o => Some {| attr_Name := a;
                            attr_Expr := StaticExpr (StringVal (val o)) zeroRange;
                            attr_Range := zeroRange;
                            attr_NameRange := zeroRange |}
        | None => fst (JustAttributes inner) !! a
        end)
  /\ snd (JustAttributes (applyBody inner overlays))
     = snd (JustAttributes inner)
       ++ map invalidArgError
            (List.filter (fun o => negb (Nat.eqb (length (steps o)) 1)) overlays).
Proof.
  cbn [JustAttributes]. destruct (JustAttributes inner) as [attrs diags].
  apply justAttributesEach_closed.
Qed.

(** X15.  A view of a view is the view of the two overlay sequences one
    after the other: the full decode and the flat decode give the same
    content and the same diagnostics, and the missing item range is the
    same. *)
Theorem X15_view_of_a_view {B} `{HclBody B}
    (inner : Body B) (ovs1 ovs2 : list cliArgOverlay) (schema : BodySchema) :
  Content (applyBody (applyBody inner ovs1) ovs2) schema
  = Content (applyBody inner (ovs1 ++ ovs2)) schema
  /\ JustAttributes (applyBody (applyBody inner ovs1) ovs2)
     = JustAttributes (applyBody inner (ovs1 ++ ovs2))
  /\ MissingItemRange (applyBody (applyBody inner ovs1) ovs2)
     = MissingItemRange (applyBody inner (ovs1 ++ ovs2)).
Proof.
  split; [|split; [|reflexivity]].
  - rewrite (Content_applyBody (applyBody inner ovs1)), !(Content_applyBody inner).
    rewrite schemaNoRequired_idem.
    destruct (Content inner (schemaNoRequired schema)) as [[c0 d0]|]; [|reflexivity].
    rewrite applyEach_app.
    destruct (applyEach ovs1 (schemaNoRequired schema) c0 d0) as [[c1 d1]|]; [|reflexivity].
    rewrite missingRequired_relaxed, app_nil_r.
    destruct (applyEach ovs2 (schemaNoRequired schema) c1 d1) as [[c2 d2]|]; reflexivity.
  - cbn [JustAttributes]. destruct (JustAttributes inner) as [attrs diags].
    rewrite justAttributesEach_app.
    destruct (justAttributesEach ovs1 attrs diags). reflexivity.
Qed.

(** ** The partial decode of a view *)

Section PartialFacts.
Context {B : Type} `{HclBody B}.

Lemma verdict_unmatched schema o :
  unmatched schema o = true <-> verdict schema o = Deferred.
Proof.
  unfold unmatched, verdict.
  destruct (steps o) as [|name rest]; cbn [head]; [split; discriminate|].
  destruct (attrDeclared schema name); cbn [negb andb].
  { destruct rest; split; discriminate. }
  destruct (findBlockS schema name) as [blockS|] eqn:Hb.
  - rewrite (findBlockS_declared _ _ _ Hb). cbn [negb].
    destruct (_ <? _)%nat; split; discriminate.
  - apply findBlockS_undeclared in Hb as ->. split; reflexivity.
Qed.

(** The loop of [PartialContent] applies, as [ApplyOverlay] would, the
    overlays the schema matches, and sets the others aside. *)
Lemma partialApplyEach_closed (overlays : list cliArgOverlay) modSchema
    (content : BodyContent B) diags acc :
  partialApplyEach overlays modSchema content diags acc
  = match applyEach (List.filter (fun o => negb (unmatched modSchema o)) overlays)
            modSchema content diags with
    | Some (content', diags') =>
        Some (content', diags', acc ++ List.filter (unmatched modSchema) overlays)
    | None => None
    end.
Proof.
  revert content diags acc.
  induction overlays as [|o l IH]; intros content diags acc;
    cbn [partialApplyEach List.filter].
  - cbn [applyEach]. by rewrite app_nil_r.
  - destruct (unmatched modSchema o) eqn:Hu; cbn [negb].
    + apply verdict_unmatched in Hu.
      rewrite PartialApplyOverlay_verdict, Hu, IH, app_nil_r.
      destruct (applyEach _ modSchema content diags) as [[c d]|]; [|reflexivity].
      by rewrite <- app_assoc.
    + cbn [applyEach]. unfold ApplyOverlay.
      destruct (PartialApplyOverlay o content modSchema) as [[[c1 rem] more]|] eqn:Hp;
        [|reflexivity].
      apply PartialApplyOverlay_leftover in Hp. rewrite Hu in Hp. subst rem.
      apply IH.
Qed.

Lemma applyEach_total (overlays : list cliArgOverlay) schema
    (content : BodyContent B) diags :
  forallb hasSteps overlays = true ->
  is_Some (applyEach overlays schema content diags).
Proof.
  revert content diags.
  induction overlays as [|o l IH]; intros content diags; cbn [forallb applyEach]; [eauto|].
  intros [Ho Hl]%andb_prop.
  pose proof (X := PartialApplyOverlay_verdict o content schema).
  unfold ApplyOverlay. rewrite X.
  assert (Hv : verdict schema o <> Panics).
  { unfold verdict, hasSteps in *. destruct (steps o) as [|name rest]; [discriminate|].
    destruct (attrDeclared schema name); [destruct rest; discriminate|].
    destruct (findBlockS schema name); [|discriminate].
    destruct (_ <? _)%nat; discriminate. }
  destruct (verdict schema o); try contradiction; cbv zeta; try (by apply IH).
  destruct (overrideFirstBlock _ _ _ _); by apply IH.
Qed.

End PartialFacts.

(** X16.  The partial decode of a view: the inner body is decoded partially
    under the relaxed schema; the overlays whose first step the schema
    declares are applied in their order, exactly as the full decode applies
    them; the others are set aside without any diagnostic and wrap, whole and
    in their order, the remainder of the inner body (which is returned as it
    is when none is set aside); the required attributes of the given schema
    are then checked as in the full decode. *)
Theorem X16_partial_decode_of_a_view {B} `{HclBody B}
    (inner : Body B) (overlays : list cliArgOverlay) (schema : BodySchema) :
  let modSchema := schemaNoRequired schema in
  let view := applyBody inner overlays in
  PartialContent view schema
  = match PartialContent inner modSchema with
    | None => None
    | Some (c0, remain0, d0) =>
        match applyEach (List.filter (fun o => negb (unmatched modSchema o)) overlays)
                modSchema c0 d0 with
        | None => None
        | Some (c, d) =>
            Some (c,
                  ApplyOverlays remain0 (List.filter (unmatched modSchema) overlays),
                  d ++ map (missingRequiredDiag view)
                         (List.filter
                            (fun attrS =>
                               attrS_Required attrS
                               && negb (bool_decide
                                          (is_Some (content_Attributes c !! attrS_Name attrS))))
                            (schema_Attributes schema)))
        end
    end.
Proof.
  intros modSchema view. unfold view. cbn [PartialContent]. fold modSchema.
  destruct (PartialContent inner modSchema) as [[[c0 r0] d0]|]; [|reflexivity].
  rewrite partialApplyEach_closed.
  destruct (applyEach _ modSchema c0 d0) as [[c d]|]; [|reflexivity].
  unfold prepareContent. rewrite checkRequired_closed. reflexivity.
Qed.

(** X17.  An overlay that one schema sets aside is applied by a later decode
    of the remainder: when a one-step overlay names nothing of the first
    schema and an attribute of the second, the partial decode of the view
    under the first schema returns the content of the inner body unchanged
    and the remainder of the inner body wrapped with that overlay; decoding
    this remainder under the second schema sets the attribute. *)
Theorem X17_deferred_overlay_is_applied_later {B} `{HclBody B}
    (inner remain0 : Body B) (o : cliArgOverlay) (a : string) (first second : BodySchema)
    (c0 c1 : BodyContent B) (d0 d1 : Diagnostics) :
  steps o = [a] ->
  attrDeclared first a = false ->
  blockDeclared first a = false ->
  attrDeclared second a = true ->
  PartialContent inner (schemaNoRequired first) = Some (c0, remain0, d0) ->
  Content remain0 (schemaNoRequired second) = Some (c1, d1) ->
  (exists d,
      PartialContent (applyBody inner [o]) first = Some (c0, applyBody remain0 [o], d))
  /\ exists c2 d2,
       Content (applyBody remain0 [o]) second = Some (c2, d2)
       /\ content_Attributes c2
          = <[a := {| attr_Name := a;
                      attr_Expr := StaticExpr (StringVal (val o)) zeroRange;
                      attr_Range := zeroRange;
                      attr_NameRange := zeroRange |}]> (content_Attributes c1)
       /\ content_Blocks c2 = content_Blocks c1.
Proof.
  intros Hs Ha1 Hb1 Ha2 Hp Hc.
  assert (Hu : unmatched (schemaNoRequired first) o = true).
  { unfold unmatched. rewrite Hs. cbn [head].
    rewrite attrDeclared_schemaNoRequired, Ha1.
    change (blockDeclared (schemaNoRequired first) a) with (blockDeclared first a).
    rewrite Hb1. reflexivity. }
  split.
  - cbn [PartialContent]. rewrite Hp, partialApplyEach_closed.
    cbn [List.filter]. rewrite Hu. cbn [negb applyEach app].
    unfold prepareContent. eexists. reflexivity.
  - rewrite Content_applyBody, Hc. cbn [applyEach]. unfold ApplyOverlay.
    rewrite (PartialApplyOverlay_attribute o c1 (schemaNoRequired second) a Hs)
      by (rewrite attrDeclared_schemaNoRequired; exact Ha2).
    eexists _, _. split; [reflexivity|]. split; reflexivity.
Qed.

Lemma X17_witness_two_schemas :
  steps ioModeOverlay = ["io_mode"]
  /\ attrDeclared servicesSchema "io_mode" = false
  /\ blockDeclared servicesSchema "io_mode" = false
  /\ attrDeclared ioModeSchema "io_mode" = true
  /\ exists c2 d2,
       Content (applyBody (BaseBody (docRemain configDoc (schemaNoRequired servicesSchema)))
                  [ioModeOverlay]) ioModeSchema = Some (c2, d2)
       /\ (attr_Expr <$> content_Attributes c2 !! "io_mode")
          = Some (StaticExpr (StringVal "blocking") zeroRange).
Proof.
  split; [reflexivity|]. split; [reflexivity|]. split; [reflexivity|].
  split; [reflexivity|].
  assert (Hp : PartialContent (BaseBody configDoc) (schemaNoRequired servicesSchema)
               = Some (docMatched configDoc (schemaNoRequired servicesSchema),
                       BaseBody (docRemain configDoc (schemaNoRequired servicesSchema)),
                       docMissing configDoc (schemaNoRequired servicesSchema)))
    by reflexivity.
  assert (Hc : exists c1 d1,
             Content (BaseBody (docRemain configDoc (schemaNoRequired servicesSchema)))
               (schemaNoRequired ioModeSchema) = Some (c1, d1))
    by (eexists _, _; reflexivity).
  destruct Hc as (c1 & d1 & Hc).
  destruct (X17_deferred_overlay_is_applied_later _ _ ioModeOverlay "io_mode"
              servicesSchema ioModeSchema _ _ _ _ eq_refl eq_refl eq_refl eq_refl Hp Hc)
    as (_ & c2 & d2 & Hc2 & Ha & _).
  exists c2, d2. split; [exact Hc2|]. rewrite Ha, lookup_insert_eq. reflexivity.
Defined.

(** ** Decoding without panic *)

Section PanicFacts.
Context {B : Type} `{HclBody B}.

Lemma partialApplyEach_total (overlays : list cliArgOverlay) schema
    (content : BodyContent B) diags acc :
  forallb hasSteps overlays = true ->
  is_Some (partialApplyEach overlays schema content diags acc).
Proof.
  intros Hall. rewrite partialApplyEach_closed.
  assert (Hsub : forallb hasSteps
                   (List.filter (fun o => negb (unmatched schema o)) overlays) = true).
  { rewrite forallb_forall in *. intros o [Ho _]%filter_In. by apply Hall. }
  destruct (applyEach_total _ schema content diags Hsub) as [[c d] ->]. eauto.
Qed.

(** The sub-overlay of an overlay that enters a block has a step. *)
Lemma remainderOverlay_hasSteps schema o blockS :
  verdict schema o = EntersBlock blockS ->
  hasSteps (remainderOverlay o (length (blockS_LabelNames blockS))) = true.
Proof.
  unfold verdict, hasSteps, remainderOverlay. cbn [steps].
  destruct (steps o) as [|name rest] eqn:Hs; [discriminate|].
  destruct (attrDeclared schema name); [destruct rest; discriminate|].
  destruct (findBlockS schema name) as [b|]; [|discriminate].
  destruct (Nat.ltb_spec (length (name :: rest)) (2 + length (blockS_LabelNames b)));
    [discriminate|].
  intros [= ->]. apply negb_true_iff, bool_decide_eq_false_2.
  intros Hnil. apply (f_equal length) in Hnil.
  rewrite length_drop in Hnil. cbn [length] in *. lia.
Qed.

Lemma overrideFirstBlock_wellFormed (blocks blocks' : list (Block B)) type want sub :
  hasSteps sub = true ->
  forallb (fun blk => wellFormed (block_Body blk)) blocks = true ->
  overrideFirstBlock blocks type want sub = Some blocks' ->
  forallb (fun blk => wellFormed (block_Body blk)) blocks' = true.
Proof.
  intros Hsub. revert blocks'.
  induction blocks as [|blk l IH]; intros blocks'; [discriminate|].
  cbn [forallb]. intros [Hblk Hl]%andb_prop. rewrite overrideFirstBlock_step.
  destruct (hasHeader type want blk).
  - intros [= <-]. cbn. rewrite Hblk, Hsub, Hl. reflexivity.
  - destruct (overrideFirstBlock l type want sub) as [l'|]; [|discriminate].
    intros [= <-]. cbn [forallb]. rewrite Hblk. by apply IH.
Qed.

Lemma ApplyOverlay_wellFormed (o : cliArgOverlay) schema
    (content content' : BodyContent B) diags :
  forallb (fun blk => wellFormed (block_Body blk)) (content_Blocks content) = true ->
  ApplyOverlay o content schema = Some (content', diags) ->
  forallb (fun blk => wellFormed (block_Body blk)) (content_Blocks content') = true.
Proof.
  intros Hwf. unfold ApplyOverlay. rewrite PartialApplyOverlay_verdict.
  destruct (verdict schema o) as [|name| |blockS|] eqn:Hv; try discriminate;
    try (intros [= <- _]; exact Hwf).
  pose proof (remainderOverlay_hasSteps _ _ _ Hv) as Hsub. cbv zeta.
  destruct (overrideFirstBlock _ _ _ _) as [blocks|] eqn:Hov; intros [= <- _];
    cbn [content_Blocks setBlocks].
  - eapply overrideFirstBlock_wellFormed; eassumption.
  - rewrite forallb_app, Hwf. cbn. rewrite Hsub. reflexivity.
Qed.

End PanicFacts.

(** X18.  A body all of whose overlays have a step decodes without panic,
    fully and partially, under every schema. *)
Theorem X18_well_formed_body_decodes {B} `{HclBody B}
    (b : Body B) (schema : BodySchema) :
  wellFormed b = true ->
  is_Some (Content b schema) /\ is_Some (PartialContent b schema).
Proof.
  revert schema. induction b as [x|inner IH overlays]; intros schema.
  - intros _. cbn [Content PartialContent].
    destruct (base_PartialContent x schema) as [[c r] d]. eauto.
  - cbn [wellFormed]. intros [Hinner Hovs]%andb_prop.
    destruct (IH (schemaNoRequired schema) Hinner) as [[[c0 d0] Hc] [[[c1 r1] d1] Hp]].
    split.
    + rewrite Content_applyBody, Hc.
      destruct (applyEach_total overlays (schemaNoRequired schema) c0 d0 Hovs)
        as [[c d] ->]. eauto.
    + cbn [PartialContent]. rewrite Hp.
      destruct (partialApplyEach_total overlays (schemaNoRequired schema) c1 d1 [] Hovs)
        as [[[c d] r] ->].
      unfold prepareContent. eauto.
Qed.

Lemma X18_witness_nested_views :
  wellFormed (applyBody (applyBody (BaseBody configDoc) [listenOverlay]) [ioModeOverlay])
  = true
  /\ is_Some (Content (applyBody (applyBody (BaseBody configDoc) [listenOverlay])
                         [ioModeOverlay]) rootSchema).
Proof.
  split; [reflexivity|].
  exact (proj1 (X18_well_formed_body_decodes
                  (applyBody (applyBody (BaseBody configDoc) [listenOverlay]) [ioModeOverlay])
                  rootSchema eq_refl)).
Defined.

(** X19.  The overlays keep the bodies decodable: every sub-overlay that is
    made for a block has a step, so when the overlays have a step each and
    the bodies of the blocks of a content are well formed, applying the
    overlays returns, and the bodies of the blocks of the result, the wrapped
    and the created ones among them, are well formed again. *)
Theorem X19_overlays_keep_block_bodies_well_formed {B} `{HclBody B}
    (overlays : list cliArgOverlay) (schema : BodySchema)
    (content : BodyContent B) (diags : Diagnostics) :
  forallb hasSteps overlays = true ->
  forallb (fun blk => wellFormed (block_Body blk)) (content_Blocks content) = true ->
  exists content' diags',
    applyEach overlays schema content diags = Some (content', diags')
    /\ forallb (fun blk => wellFormed (block_Body blk)) (content_Blocks content') = true.
Proof.
  revert content diags.
  induction overlays as [|o l IH]; intros content diags; cbn [forallb applyEach].
  - intros _ Hwf. eauto.
  - intros [Ho Hl]%andb_prop Hwf.
    destruct (applyEach_total [o] schema content diags) as [[c1 d1] H1].
    { cbn [forallb]. rewrite Ho. reflexivity. }
    cbn [applyEach] in H1.
    destruct (ApplyOverlay o content schema) as [[c1' more]|] eqn:Hap; [|discriminate].
    apply IH; [exact Hl|]. eapply ApplyOverlay_wellFormed; eassumption.
Qed.

Lemma X19_witness_created_and_wrapped :
  forallb hasSteps [gopherOverlay; listenOverlay] = true
  /\ forallb (fun blk => wellFormed (block_Body blk)) (content_Blocks configContent) = true
  /\ exists content' diags',
       applyEach [gopherOverlay; listenOverlay] rootSchema configContent []
       = Some (content', diags')
       /\ forallb (fun blk => wellFormed (block_Body blk)) (content_Blocks content') = true.
Proof.
  split; [reflexivity|]. split; [reflexivity|].
  exact (X19_overlays_keep_block_bodies_well_formed [gopherOverlay; listenOverlay]
           rootSchema configContent [] eq_refl eq_refl).
Defined.

(** X20.  A required attribute that an overlay supplies is not reported
    missing, whether the inner body defines it or not: when the schema
    declares [a] and some overlay of the view has the one step [a], the
    decoded content defines [a], and the diagnostics of the decode end with
    the errors for the required attributes that are still missing, none of
    which is for [a]. *)
Theorem X20_overlay_supplies_required_attribute {B} `{HclBody B}
    (inner : Body B) (overlays : list cliArgOverlay) (schema : BodySchema)
    (c : BodyContent B) (d : Diagnostics) (a : string) :
  attrDeclared schema a = true ->
  existsb (namesOnly a) overlays = true ->
  Content (applyBody inner overlays) schema = Some (c, d) ->
  is_Some (content_Attributes c !! a)
  /\ exists before missing,
       d = before ++ map (missingRequiredDiag (applyBody inner overlays)) missing
       /\ missing
          = List.filter
              (fun attrS =>
                 attrS_Required attrS
                 && negb (bool_decide (is_Some (content_Attributes c !! attrS_Name attrS))))
              (schema_Attributes schema)
       /\ Forall (fun attrS => attrS_Name attrS <> a) missing.
Proof.
  intros Hd Hex. rewrite Content_applyBody.
  destruct (Content inner (schemaNoRequired schema)) as [[c0 d0]|]; [|discriminate].
  destruct (applyEach overlays (schemaNoRequired schema) c0 d0) as [[c1 d1]|] eqn:Hap;
    [|discriminate].
  intros [= <- <-].
  destruct (applyEach_keeps _ _ _ _ _ _ Hap) as (_ & _ & Hattr).
  assert (Hsome : is_Some (content_Attributes c1 !! a)).
  { rewrite Hattr, attrDeclared_schemaNoRequired, Hd.
    unfold lastSetter.
    destruct (last (List.filter (namesOnly a) overlays)) as [o|] eqn:Hlast; [eauto|].
    apply last_None in Hlast.
    apply existsb_exists in Hex as (o & Hin & Ho).
    assert (Hf : In o (List.filter (namesOnly a) overlays)) by (apply filter_In; auto).
    rewrite Hlast in Hf. destruct Hf. }
  split; [exact Hsome|].
  eexists d1, _. split; [reflexivity|]. split; [reflexivity|].
  apply Forall_forall. intros attrS [_ Hf]%list_elem_of_In%filter_In Hname.
  apply andb_prop in Hf as [_ Habs]. apply negb_true_iff, bool_decide_eq_false in Habs.
  rewrite Hname in Habs. contradiction.
Qed.

Lemma X20_witness_document_without_io_mode :
  exists c,
    attrDeclared rootSchema "io_mode" = true
    /\ existsb (namesOnly "io_mode") [ioModeOverlay] = true
    /\ Content (applyBody (BaseBody (mkDoc [] [] fileRange)) [ioModeOverlay]) rootSchema
       = Some (c, [])
    /\ is_Some (content_Attributes c !! "io_mode").
Proof.
  assert (Hc : exists c,
             Content (applyBody (BaseBody (mkDoc [] [] fileRange)) [ioModeOverlay]) rootSchema
             = Some (c, [])) by (eexists; vm_compute; reflexivity).
  destruct Hc as (c & Hc). exists c.
  split; [reflexivity|]. split; [reflexivity|]. split; [exact Hc|].
  exact (proj1 (X20_overlay_supplies_required_attribute
                  (BaseBody (mkDoc [] [] fileRange)) [ioModeOverlay] rootSchema c []
                  "io_mode" eq_refl eq_refl Hc)).
Defined.

(** ** The full decode of a view *)

Section RequiredFacts.
Context {B : Type} `{HclBody B}.

(** The loop of [Content] is a left fold of [ApplyOverlay]. *)
Lemma applyEach_fold (overlays : list cliArgOverlay) modSchema
    (content : BodyContent B) diags :
  applyEach overlays modSchema content diags
  = fold_left
      (fun (acc : option (BodyContent B * Diagnostics)) (ov : cliArgOverlay) =>
         match acc with
         | Some (content, diags) =>
             match ApplyOverlay ov content modSchema with
             | Some (content', moreDiags) => Some (content', diags ++ moreDiags)
             | None => None
             end
         | None => None
         end)
      overlays (Some (content, diags)).
Proof.
  revert content diags.
  induction overlays as [|ov l IH]; intros content diags; cbn [applyEach fold_left];
    [reflexivity|].
  destruct (ApplyOverlay ov content modSchema) as [[c1 more]|]; [apply IH|].
  clear. induction l as [|x l IH]; [reflexivity | exact IH].
Qed.

Lemma ApplyOverlay_diagnostics (o : cliArgOverlay) (content content' : BodyContent B)
    schema diags :
  ApplyOverlay o content schema = Some (content', diags) ->
  diags = [] \/ diags = [invalidArgError o].
Proof.
  unfold ApplyOverlay. rewrite PartialApplyOverlay_verdict.
  destruct (verdict schema o); try discriminate; cbv zeta;
    try (intros [= _ <-]; auto).
  destruct (overrideFirstBlock _ _ _ _); intros [= _ <-]; auto.
Qed.

(** The diagnostics the overlays add are their own errors. *)
Lemma applyEach_diagnostics (overlays : list cliArgOverlay) schema
    (content content' : BodyContent B) diags diags' :
  applyEach overlays schema content diags = Some (content', diags') ->
  exists more,
    diags' = diags ++ more
    /\ Forall (fun x => exists o, o ∈ overlays /\ x = invalidArgError o) more
    /\ length more <= length overlays.
Proof.
  revert content diags.
  induction overlays as [|o l IH]; intros content diags; cbn [applyEach].
  - intros [= _ <-]. exists []. rewrite app_nil_r. repeat split; auto.
  - destruct (ApplyOverlay o content schema) as [[c1 d1]|] eqn:H1; [|discriminate].
    intros (more & -> & Hall & Hlen)%IH.
    exists (d1 ++ more). rewrite app_assoc. split; [reflexivity|].
    assert (Hall' : Forall (fun x => exists o', o' ∈ o :: l /\ x = invalidArgError o') more).
    { eapply Forall_impl; [exact Hall|]. intros x (o' & Hin & ->).
      exists o'. split; [by apply list_elem_of_further | reflexivity]. }
    destruct (ApplyOverlay_diagnostics _ _ _ _ _ H1) as [->| ->]; cbn [app length].
    + split; [exact Hall' | lia].
    + split; [|lia]. constructor; [|exact Hall'].
      exists o. split; [apply list_elem_of_here | reflexivity].
Qed.

Lemma attrDeclared_member schema attrS :
  In attrS (schema_Attributes schema) -> attrDeclared schema (attrS_Name attrS) = true.
Proof.
  intros Hin. unfold attrDeclared. apply existsb_exists.
  exists attrS. split; [exact Hin | by apply bool_decide_eq_true_2].
Qed.

End RequiredFacts.

(** C6.  [Content] of the view decodes the inner body under the relaxed
    schema, which has the attribute names and the blocks of the given schema
    and no required attribute; it then applies the overlays from left to
    right, each by [ApplyOverlay] under the relaxed schema on the content the
    one before it returned, adding its diagnostics after those already there;
    and then it appends, for each attribute spec of the given schema that is
    required and has no attribute in the final content, one error "Missing
    required argument" whose subject is the missing item range of the inner
    body, which is that of the document under the views.

    In the final content an attribute the schema declares is the literal of
    the last overlay that names it, and otherwise what the inner content has;
    the blocks of the inner content are kept.  So a required attribute is
    reported missing exactly when the inner content, decoded without any
    requirement, lacks it and no overlay names it: nothing is required of the
    document before the overlays are applied.  The diagnostics are those of
    the inner decode, then the errors of the overlays, then the missing
    attributes. *)
Theorem C6_required_checked_after_overlays {B} `{HclBody B}
    (inner : Body B) (overlays : list cliArgOverlay) (schema : BodySchema) :
  let modSchema := schemaNoRequired schema in
  let view := applyBody inner overlays in
  let step (acc : option (BodyContent B * Diagnostics)) (ov : cliArgOverlay) :=
    match acc with
    | Some (content, diags) =>
        match ApplyOverlay ov content modSchema with
        | Some (content', moreDiags) => Some (content', diags ++ moreDiags)
        | None => None
        end
    | None => None
    end in
  Forall (fun attrS => attrS_Required attrS = false) (schema_Attributes modSchema)
  /\ map attrS_Name (schema_Attributes modSchema) = map attrS_Name (schema_Attributes schema)
  /\ schema_Blocks modSchema = schema_Blocks schema
  /\ Content view schema
     = match Content inner modSchema with
       | None => None
       | Some (c0, d0) =>
           match fold_left step overlays (Some (c0, d0)) with
           | None => None
           | Some (c, d) =>
               Some (c, d ++ map (missingRequiredDiag view)
                              (List.filter
                                 (fun attrS =>
                                    attrS_Required attrS
                                    && negb (bool_decide
                                               (is_Some (content_Attributes c !! attrS_Name attrS))))
                                 (schema_Attributes schema)))
           end
       end
  /\ (forall c0 d0 c d,
        Content inner modSchema = Some (c0, d0) ->
        Content view schema = Some (c, d) ->
        (forall a,
            content_Attributes c !! a
            = match lastSetter a overlays with
              | Some o =>
                  if attrDeclared schema a
                  then Some {| attr_Name := a;
                               attr_Expr := StaticExpr (StringVal (val o)) zeroRange;
                               attr_Range := zeroRange;
                               attr_NameRange := zeroRange |}
                  else content_Attributes c0 !! a
              | None => content_Attributes c0 !! a
              end)
        /\ (exists kept added,
               content_Blocks c = kept ++ added
               /\ Forall2 sameHeader (content_Blocks c0) kept
               /\ length added <= length overlays)
        /\ exists more,
             d = d0 ++ more
                 ++ map (missingRequiredDiag view)
                      (List.filter
                         (fun attrS =>
                            attrS_Required attrS
                            && negb (bool_decide
                                       (is_Some (content_Attributes c0 !! attrS_Name attrS)))
                            && negb (bool_decide
                                       (is_Some (lastSetter (attrS_Name attrS) overlays))))
                         (schema_Attributes schema))
             /\ Forall (fun x => exists o, o ∈ overlays /\ x = invalidArgError o) more
             /\ length more <= length overlays)
  /\ (forall attrS,
        diag_Severity (missingRequiredDiag view attrS) = DiagError
        /\ diag_Summary (missingRequiredDiag view attrS) = "Missing required argument"
        /\ diag_Subject (missingRequiredDiag view attrS) = Some (MissingItemRange inner)
        /\ (isASCII (attrS_Name attrS) = true ->
            diag_Detail (missingRequiredDiag view attrS)
            = ("The argument " ++ Quote (attrS_Name attrS)
               ++ " is required, but no definition was found.")%string))
  /\ MissingItemRange inner = base_MissingItemRange (baseOf inner).
Proof.
  intros modSchema view step.
  split.
  { unfold modSchema. rewrite schemaNoRequired_attributes.
    apply Forall_forall. intros x (y & -> & _)%list_elem_of_fmap. reflexivity. }
  split.
  { unfold modSchema. rewrite schemaNoRequired_attributes, map_map. reflexivity. }
  split; [reflexivity|].
  split.
  { unfold view. rewrite Content_applyBody. fold modSchema.
    destruct (Content inner modSchema) as [[c0 d0]|]; [|reflexivity].
    rewrite applyEach_fold. reflexivity. }
  split.
  { intros c0 d0 c d Hc0. unfold view. rewrite Content_applyBody. fold modSchema.
    rewrite Hc0.
    destruct (applyEach overlays modSchema c0 d0) as [[c1 d1]|] eqn:Hap; [|discriminate].
    intros [= <- <-].
    destruct (applyEach_keeps _ _ _ _ _ _ Hap) as (_ & Hblocks & Hattr).
    destruct (applyEach_diagnostics _ _ _ _ _ _ Hap) as (more & -> & Hmore & Hlen).
    assert (Hattr' : forall a,
               content_Attributes c1 !! a
               = match lastSetter a overlays with
                 | Some o => if attrDeclared schema a then Some (overlayAttribute o a)
                             else content_Attributes c0 !! a
                 | None => content_Attributes c0 !! a
                 end).
    { intros a. rewrite Hattr. unfold modSchema.
      rewrite attrDeclared_schemaNoRequired. reflexivity. }
    split; [exact Hattr'|]. split; [exact Hblocks|].
    exists more. split; [|split; assumption].
    rewrite <- app_assoc. do 2 f_equal. unfold missingRequired. f_equal.
    apply filter_ext_in. intros attrS Hin.
    rewrite Hattr', (attrDeclared_member schema attrS Hin).
    destruct (attrS_Required attrS); [|reflexivity]. cbn [andb].
    destruct (lastSetter (attrS_Name attrS) overlays) as [o|].
    - rewrite !bool_decide_eq_true_2 by eauto. cbn. symmetry. apply andb_false_r.
    - rewrite (bool_decide_eq_false_2 (is_Some None)) by (intros [? ?]; discriminate).
      cbn. rewrite andb_true_r. reflexivity. }
  split; [intros attrS; repeat split|].
  induction inner as [x|inner' IH ovs]; [reflexivity | exact IH].
Qed.
